(** * A shallow embedding of [lexer.c]

    The scanner of [lexer.c] reads a [FILE*] one character at a time through
    [read_char] / [unread_char], which also maintain the two global position
    counters [g_line] and [g_col].  The embedding threads these three pieces
    of state explicitly through a small state-and-failure monad.  The only
    source of failure in the model is running out of loop fuel; the theorems
    below show that this never happens with the fuel [next_token] supplies. *)

From Stdlib Require Import Ascii String List ZArith Lia Bool Arith Sorted.
Import ListNotations.

Local Open Scope char_scope.
Local Open Scope list_scope.

(* ================================================================= *)
(** ** Characters and C strings *)

(** The [int] returned by [fgetc]: a byte, or [EOF]. *)
Definition cint := option ascii.
Definition EOF : cint := None.

Definition NUL : ascii := "000".
Definition NL : ascii := "010".
Definition DQUOTE : ascii := "034".

(** A C string literal as the list of its characters. *)
Definition str (s : string) : list ascii := list_ascii_of_string s.

Definition code (a : ascii) : nat := nat_of_ascii a.

Definition in_range (lo hi : nat) (a : ascii) : bool :=
  ((lo <=? code a) && (code a <=? hi))%nat.

(** [<ctype.h>] in the C locale (the program never calls [setlocale]). *)
Definition isdigit (c : cint) : bool :=
  match c with Some a => in_range 48 57 a | None => false end.

Definition isalpha (c : cint) : bool :=
  match c with
  | Some a => in_range 65 90 a || in_range 97 122 a
  | None => false
  end.

Definition isalnum (c : cint) : bool := isalpha c || isdigit c.

Definition isspace (c : cint) : bool :=
  match c with
  | Some a => (code a =? 32)%nat || in_range 9 13 a
  | None => false
  end.

(** [c == 'x'] for an [int c]. *)
Definition is_chr (x : ascii) (c : cint) : bool :=
  match c with Some a => Ascii.eqb a x | None => false end.

(** [(char)c]: [EOF] is -1, whose low byte is 0xFF. *)
Definition to_char (c : cint) : ascii :=
  match c with Some a => a | None => "255" end.

(** The C string held in a buffer: everything before the first NUL. *)
Fixpoint cstr (s : list ascii) : list ascii :=
  match s with
  | [] => []
  | a :: s' => if Ascii.eqb a NUL then [] else a :: cstr s'
  end.

Fixpoint chars_eqb (s t : list ascii) : bool :=
  match s, t with
  | [], [] => true
  | a :: s', b :: t' => Ascii.eqb a b && chars_eqb s' t'
  | _, _ => false
  end.

(** [strcmp(s, t) == 0] *)
Definition strcmp0 (s t : list ascii) : bool := chars_eqb (cstr s) (cstr t).

(** [strchr(s, c) != NULL]: the terminating NUL counts as part of [s]. *)
Definition strchr (s : list ascii) (c : ascii) : bool :=
  existsb (Ascii.eqb c) (cstr s ++ [NUL]).

Definition MAX_LEXEME_LEN : nat := 256.
Definition MAX_ID_LEN : nat := 64.

(* ================================================================= *)
(** ** Tokens *)

Inductive TokenType : Type :=
| TOK_EOF | TOK_KEYWORD | TOK_IDENTIFIER | TOK_INT | TOK_FLOAT | TOK_STRING
| TOK_CHAR | TOK_OPERATOR | TOK_SEPARATOR | TOK_UNKNOWN | TOK_ERROR.

Record Token : Type := mkToken {
  type : TokenType;
  lexeme : list ascii;
  line : Z;
  col : Z
}.

(** [strncpy(t.lexeme, lex, MAX_LEXEME_LEN - 1)] followed by the terminator. *)
Definition make_token (ty : TokenType) (lex : list ascii) (l c : Z) : Token :=
  mkToken ty (firstn (MAX_LEXEME_LEN - 1) (cstr lex)) l c.

Definition KEYWORDS : list (list ascii) :=
  map str ["if"; "else"; "while"; "for"; "return"; "int"; "float";
           "char"; "void"; "break"; "continue"; "struct"; "const"]%string.

Definition is_keyword (s : list ascii) : bool := existsb (strcmp0 s) KEYWORDS.

(* ================================================================= *)
(** ** The input stream and the position counters *)

(** A [FILE] opened for reading.  [pending] is the pushback stack filled by
    [ungetc] (most recent first) and [rest] the part of the file not yet read.
    The stream keeps every pushed-back character, as the common C libraries
    do.  [peak] records the largest pushback depth reached so far; nothing in
    the scanner reads it. *)
Record FILE : Type := mkFILE {
  pending : list ascii;
  rest : list ascii;
  peak : nat
}.

Definition fopen (input : list ascii) : FILE := mkFILE [] input 0.

Definition fgetc (f : FILE) : cint * FILE :=
  match pending f with
  | a :: p => (Some a, mkFILE p (rest f) (peak f))
  | [] =>
    match rest f with
    | a :: r => (Some a, mkFILE [] r (peak f))
    | [] => (EOF, f)
    end
  end.

Definition ungetc (a : ascii) (f : FILE) : FILE :=
  mkFILE (a :: pending f) (rest f) (Nat.max (peak f) (S (length (pending f)))).

(** The globals [g_line], [g_col] together with the stream.  The counters
    are C [int]s; they are kept as unbounded integers here, which agrees with
    the program as long as the input has fewer than 2^31 characters. *)
Record State : Type := mkState {
  g_line : Z;
  g_col : Z;
  fp : FILE
}.

(** The state of a fresh process scanning [input]. *)
Definition start (input : list ascii) : State := mkState 1 0 (fopen input).

(** What is still to be read, pushed-back characters first. *)
Definition contents (st : State) : list ascii :=
  pending (fp st) ++ rest (fp st).

Definition remaining (st : State) : nat := length (contents st).

(* ================================================================= *)
(** ** The scanner monad *)

Definition Lex (A : Type) : Type := State -> option (A * State).

Definition ret {A} (a : A) : Lex A := fun st => Some (a, st).

Definition bind {A B} (m : Lex A) (k : A -> Lex B) : Lex B :=
  fun st => match m st with
            | Some (a, st') => k a st'
            | None => None
            end.

(** Loop fuel exhausted. *)
Definition out_of_fuel {A} : Lex A := fun _ => None.

Notation "x <- m ;; k" := (bind m (fun x => k))
  (at level 61, m at next level, right associativity).
Notation "m ;;; k" := (bind m (fun _ => k))
  (at level 61, right associativity).

Definition read_char : Lex cint := fun st =>
  let (c, f) := fgetc (fp st) in
  match c with
  | Some a =>
    if Ascii.eqb a NL then Some (c, mkState (g_line st + 1) 0 f)
    else Some (c, mkState (g_line st) (g_col st + 1) f)
  | None => Some (c, mkState (g_line st) (g_col st) f)
  end.

Definition unread_char (c : cint) : Lex unit := fun st =>
  match c with
  | None => Some (tt, st)
  | Some a =>
    let f := ungetc a (fp st) in
    if Ascii.eqb a NL then Some (tt, mkState (g_line st) (g_col st) f)
    else Some (tt, mkState (g_line st) (g_col st - 1) f)
  end.

Definition get_line : Lex Z := fun st => Some (g_line st, st).
Definition get_col : Lex Z := fun st => Some (g_col st, st).

(** [while (cond(c, a)) { a = body(c, a); c = read_char(fp); }], the shape
    shared by the simple scanning loops; [a] stands for the locals the loop
    updates. *)
Fixpoint while_read {A} (fuel : nat) (cond : cint -> A -> bool)
    (body : cint -> A -> A) (c : cint) (a : A) : Lex (cint * A) :=
  if cond c a then
    match fuel with
    | O => out_of_fuel
    | S fuel' =>
      c' <- read_char ;;
      while_read fuel' cond body c' (body c a)
    end
  else ret (c, a).

(** [if (len < limit) buf[len++] = c;] *)
Definition push (limit : nat) (c : ascii) (buf : list ascii) : list ascii :=
  if (length buf <? limit)%nat then buf ++ [c] else buf.

(* ----------------------------------------------------------------- *)
(** *** Whitespace and comments *)

Definition ws_cond (c : cint) (_ : unit) : bool := isspace c.
Definition line_comment_cond (ch : cint) (_ : unit) : bool :=
  negb (is_chr NL ch) && negb (match ch with None => true | _ => false end).
Definition block_comment_cond (ch : cint) (prev : ascii) : bool :=
  match ch with
  | None => false
  | Some a => negb (Ascii.eqb prev "*" && Ascii.eqb a "/")
  end.
Definition keep {A} (_ : cint) (a : A) : A := a.

Fixpoint skip_whitespace_and_comments (fuel : nat) : Lex unit :=
  match fuel with
  | O => out_of_fuel
  | S fuel' =>
    c0 <- read_char ;;
    r <- while_read fuel' ws_cond keep c0 tt ;;
    let c := fst r in
    if is_chr "/" c then
      next <- read_char ;;
      if is_chr "/" next then
        ch <- read_char ;;
        while_read fuel' line_comment_cond keep ch tt ;;;
        skip_whitespace_and_comments fuel'
      else if is_chr "*" next then
        ch <- read_char ;;
        while_read fuel' block_comment_cond (fun ch _ => to_char ch) ch NUL ;;;
        skip_whitespace_and_comments fuel'
      else
        unread_char next ;;;
        unread_char c
    else
      unread_char c
  end.

(* ----------------------------------------------------------------- *)
(** *** Identifiers and keywords *)

Definition ident_cond (c : cint) (_ : list ascii) : bool :=
  isalnum c || is_chr "_" c.
Definition store (limit : nat) (c : cint) (buf : list ascii) : list ascii :=
  push limit (to_char c) buf.

Definition read_identifier_or_keyword (fuel : nat) : Lex Token :=
  start_line <- get_line ;;
  gc <- get_col ;;
  let start_col := (gc + 1)%Z in
  c <- read_char ;;
  r <- while_read fuel ident_cond (store (MAX_LEXEME_LEN - 1)) c [] ;;
  let (c, buf) := r : cint * list ascii in
  unread_char c ;;;
  if negb (is_keyword buf) && (MAX_ID_LEN <? length (cstr buf))%nat then
    let truncated := firstn MAX_ID_LEN (cstr buf) in
    ret (make_token TOK_IDENTIFIER truncated start_line start_col)
  else if is_keyword buf then
    ret (make_token TOK_KEYWORD buf start_line start_col)
  else
    ret (make_token TOK_IDENTIFIER buf start_line start_col).

(* ----------------------------------------------------------------- *)
(** *** Numbers *)

Definition digit_cond (c : cint) (_ : list ascii) : bool := isdigit c.

Definition read_number (fuel : nat) : Lex Token :=
  start_line <- get_line ;;
  gc <- get_col ;;
  let start_col := (gc + 1)%Z in
  c <- read_char ;;
  r <- while_read fuel digit_cond (store (MAX_LEXEME_LEN - 1)) c [] ;;
  let (c, buf) := r : cint * list ascii in
  if is_chr "." c then
    let buf := push (MAX_LEXEME_LEN - 1) "." buf in
    c <- read_char ;;
    r <- while_read fuel digit_cond (store (MAX_LEXEME_LEN - 1)) c buf ;;
    let (c, buf) := r : cint * list ascii in
    unread_char c ;;;
    ret (make_token TOK_FLOAT buf start_line start_col)
  else
    unread_char c ;;;
    ret (make_token TOK_INT buf start_line start_col).

(* ----------------------------------------------------------------- *)
(** *** String literals *)

Definition unterminated_string : list ascii :=
  str "Unterminated string literal".

(** The main loop of [read_string], which runs until [c] is [EOF] or the
    closing quote, together with the code after it. *)
Fixpoint read_string_loop (fuel : nat) (c : cint) (buf : list ascii)
    (start_line start_col : Z) : Lex Token :=
  match c with
  | None => ret (make_token TOK_ERROR unterminated_string start_line start_col)
  | Some a =>
    if Ascii.eqb a DQUOTE then
      ret (make_token TOK_STRING buf start_line start_col)
    else if Ascii.eqb a NL then
      ret (make_token TOK_ERROR unterminated_string start_line start_col)
    else
      match fuel with
      | O => out_of_fuel
      | S fuel' =>
        if Ascii.eqb a "\" then
          let buf := push (MAX_LEXEME_LEN - 2) a buf in
          c <- read_char ;;
          match c with
          | None =>
            ret (make_token TOK_ERROR unterminated_string start_line start_col)
          | Some e =>
            let buf := push (MAX_LEXEME_LEN - 2) e buf in
            c <- read_char ;;
            read_string_loop fuel' c buf start_line start_col
          end
        else
          let buf := push (MAX_LEXEME_LEN - 1) a buf in
          c <- read_char ;;
          read_string_loop fuel' c buf start_line start_col
      end
  end.

Definition read_string (fuel : nat) : Lex Token :=
  start_line <- get_line ;;
  gc <- get_col ;;
  let start_col := (gc + 1)%Z in
  read_char ;;;
  c <- read_char ;;
  read_string_loop fuel c [] start_line start_col.

(* ----------------------------------------------------------------- *)
(** *** Character literals *)

Definition unterminated_char : list ascii := str "Unterminated char literal".
Definition invalid_char : list ascii :=
  str "Invalid/unterminated char literal".

Definition read_char_literal : Lex Token :=
  start_line <- get_line ;;
  gc <- get_col ;;
  let start_col := (gc + 1)%Z in
  read_char ;;;
  c <- read_char ;;
  match c with
  | None => ret (make_token TOK_ERROR unterminated_char start_line start_col)
  | Some a =>
    if Ascii.eqb a NL then
      ret (make_token TOK_ERROR unterminated_char start_line start_col)
    else
      r <- (if Ascii.eqb a "\" then
              let buf := push (MAX_LEXEME_LEN - 2) a [] in
              c <- read_char ;;
              match c with
              | None => ret None
              | Some e =>
                if Ascii.eqb e NL then ret None
                else ret (Some (push (MAX_LEXEME_LEN - 2) e buf))
              end
            else ret (Some (push (MAX_LEXEME_LEN - 1) a []))) ;;
      match r with
      | None =>
        ret (make_token TOK_ERROR unterminated_char start_line start_col)
      | Some buf =>
        closing <- read_char ;;
        if negb (is_chr "'" closing) then
          ret (make_token TOK_ERROR invalid_char start_line start_col)
        else ret (make_token TOK_CHAR buf start_line start_col)
      end
  end.

(* ----------------------------------------------------------------- *)
(** *** Operators and separators *)

Definition is_separator_char (c : cint) : bool :=
  is_chr "(" c || is_chr ")" c || is_chr "{" c || is_chr "}" c || is_chr "[" c ||
  is_chr "]" c || is_chr ";" c || is_chr "," c.

Definition two_ops : list (list ascii) :=
  map str ["=="; "!="; "<="; ">="; "&&"; "||"; "++";
           "--"; "+="; "-="; "*="; "/="; "%="; "->"]%string.

Definition single_ops : list ascii := str "+-*/%<>=!&|^~?:.".

Definition read_operator_or_separator : Lex Token :=
  start_line <- get_line ;;
  gc <- get_col ;;
  let start_col := (gc + 1)%Z in
  c1 <- read_char ;;
  if is_separator_char c1 then
    ret (make_token TOK_SEPARATOR [to_char c1] start_line start_col)
  else
    c2 <- read_char ;;
    let lex := [to_char c1; to_char c2] in
    if existsb (strcmp0 lex) two_ops then
      ret (make_token TOK_OPERATOR lex start_line start_col)
    else
      unread_char c2 ;;;
      let lex := [to_char c1] in
      if strchr single_ops (to_char c1) then
        ret (make_token TOK_OPERATOR lex start_line start_col)
      else ret (make_token TOK_UNKNOWN lex start_line start_col).

(* ----------------------------------------------------------------- *)
(** *** Dispatch *)

Definition next_token_fuel (fuel : nat) : Lex Token :=
  skip_whitespace_and_comments fuel ;;;
  c <- read_char ;;
  match c with
  | None =>
    l <- get_line ;;
    k <- get_col ;;
    ret (make_token TOK_EOF (str "EOF") l k)
  | Some _ =>
    unread_char c ;;;
    c <- read_char ;;
    unread_char c ;;;
    if isalpha c || is_chr "_" c then read_identifier_or_keyword fuel
    else if isdigit c then read_number fuel
    else if is_chr DQUOTE c then read_string fuel
    else if is_chr "'" c then read_char_literal
    else read_operator_or_separator
  end.

(** One call of [next_token]: no loop of the call runs more often than there
    are characters left, so this fuel is never used up ([next_token_spec]). *)
Definition next_token : Lex Token :=
  fun st => next_token_fuel (remaining st + 2) st.

(* ----------------------------------------------------------------- *)
(** *** Drivers *)

(** The loop of [main]: tokens are requested (and printed) until the first
    [TOK_ERROR] or [TOK_EOF]; the list stands for the printed lines. *)
Fixpoint main_loop (fuel : nat) : Lex (list Token) :=
  match fuel with
  | O => out_of_fuel
  | S fuel' =>
    t <- next_token ;;
    match type t with
    | TOK_ERROR | TOK_EOF => ret [t]
    | _ => ts <- main_loop fuel' ;; ret (t :: ts)
    end
  end.

(** The characters a step took from the stream, given the states before and
    after it. *)
Definition consumed (st st' : State) : list ascii :=
  firstn (remaining st - remaining st') (contents st).

Definition next_token_chunk : Lex (Token * list ascii) := fun st =>
  match next_token st with
  | Some (t, st') => Some ((t, consumed st st'), st')
  | None => None
  end.

(** The token sequence of the specification: [next_token] is called until it
    returns [TOK_EOF].  Each token is paired with the characters its call
    consumed (skipped layout and comments included). *)
Fixpoint scan_loop (fuel : nat) : Lex (list (Token * list ascii)) :=
  match fuel with
  | O => out_of_fuel
  | S fuel' =>
    tc <- next_token_chunk ;;
    match type (fst tc) with
    | TOK_EOF => ret [tc]
    | _ => tcs <- scan_loop fuel' ;; ret (tc :: tcs)
    end
  end.

Definition run {A} (m : Lex A) (st : State) : option A :=
  match m st with Some (a, _) => Some a | None => None end.

(** A complete scan of [input] by a fresh process. *)
Definition scan (input : list ascii) : option (list (Token * list ascii)) :=
  run (scan_loop (S (List.length input))) (start input).

Definition tokens (input : list ascii) : option (list Token) :=
  option_map (map fst) (scan input).

Definition main (input : list ascii) : option (list Token) :=
  run (main_loop (S (List.length input))) (start input).

(* ----------------------------------------------------------------- *)
(** *** Token printing *)

Definition token_name (t : TokenType) : string :=
  match t with
  | TOK_EOF => "EOF"
  | TOK_KEYWORD => "KEYWORD"
  | TOK_IDENTIFIER => "IDENTIFIER"
  | TOK_INT => "INT"
  | TOK_FLOAT => "FLOAT"
  | TOK_STRING => "STRING"
  | TOK_CHAR => "CHAR"
  | TOK_OPERATOR => "OPERATOR"
  | TOK_SEPARATOR => "SEPARATOR"
  | TOK_UNKNOWN => "UNKNOWN"
  | TOK_ERROR => "ERROR"
  end%string.

(* ================================================================= *)
(** ** Vocabulary of the specification *)

(** The stream as it would be with the character in hand put back. *)
Definition ahead (c : cint) (st : State) : list ascii :=
  match c with Some a => a :: contents st | None => contents st end.

Definition depth (st : State) : nat := List.length (pending (fp st)).

Definition high (st : State) : nat := peak (fp st).

(** [read_char] and [unread_char] never fail; these are the states they
    leave behind. *)
Definition after_read (st : State) : State :=
  match read_char st with Some (_, st') => st' | None => st end.

Definition after_unread (c : cint) (st : State) : State :=
  match unread_char c st with Some (_, st') => st' | None => st end.

(** [reads c st c' st']: going from [st] with [c] in hand to [st'] with [c']
    in hand only took characters from the front of the stream. *)
Record reads (c : cint) (st : State) (c' : cint) (st' : State) : Prop := {
  reads_suffix : exists k, ahead c st = k ++ ahead c' st';
  reads_depth : depth st' <= depth st;
  reads_high : high st' = high st
}.

(** What one run of the skipper does to the stream: it takes characters from
    the front only, and when it returns at most the slash and the character
    after it are pushed back. *)
Record skipped (st st' : State) : Prop := {
  skipped_suffix : exists k, contents st = k ++ contents st';
  skipped_depth :
    depth st <= 1 ->
    depth st' <= 1 \/ (depth st' = 2 /\ hd_error (contents st') = Some "/");
  skipped_high : depth st <= 1 -> high st' <= Nat.max (high st) 2
}.

(** What a sub-scanner does to the stream: it takes at least one character,
    leaves at most one pushed back, and never answers [TOK_EOF]. *)
Record scanned (st : State) (t : Token) (st' : State) : Prop := {
  scanned_type : type t <> TOK_EOF;
  scanned_suffix : exists a k, contents st = a :: k ++ contents st';
  scanned_depth : depth st <= 1 -> depth st' <= 1;
  scanned_high : depth st <= 1 -> high st' <= Nat.max (high st) 1
}.

(** What one call does to the stream. *)
Record lexed (st : State) (t : Token) (st' : State) : Prop := {
  lexed_suffix : exists k, contents st = k ++ contents st';
  lexed_progress : type t <> TOK_EOF -> remaining st' < remaining st;
  lexed_eof : type t = TOK_EOF -> contents st' = [];
  lexed_depth : depth st <= 1 -> depth st' <= 1;
  lexed_high : depth st <= 1 -> high st' <= Nat.max (high st) 2
}.

(** The state in which the dispatcher calls a sub-scanner: the lookahead
    character has been read and pushed back twice. *)
Definition peeked (c : cint) (st : State) : State :=
  after_unread c (after_read (after_unread c (after_read st))).

(** [n] successive calls of [next_token], whatever they return. *)
Fixpoint calls (n : nat) : Lex (list Token) :=
  match n with
  | O => ret []
  | S n' => t <- next_token ;; ts <- calls n' ;; ret (t :: ts)
  end.

(** A token sequence that ends with its only [TOK_EOF]. *)
Definition ends_with_eof (ts : list Token) : Prop :=
  exists front last,
    ts = front ++ [last] /\
    type last = TOK_EOF /\
    Forall (fun t => type t <> TOK_EOF) front.

(** Reading a character and pushing it back at once. *)
Definition peek1 (a : ascii) (st : State) : State :=
  after_unread (Some a) (after_read st).

(** [layout_skipped st s]: the skipper, started in [st], returns in [s]. *)
Definition layout_skipped (st s : State) : Prop :=
  exists fuel, skip_whitespace_and_comments fuel st = Some (tt, s).

(** The characters of an identifier: letters, digits and the underscore. *)
Definition idchar (a : ascii) : bool := ident_cond (Some a) [].

(** A run that no further character of the stream can extend. *)
Definition maximal_run (p : ascii -> bool) (tail : list ascii) : Prop :=
  match tail with
  | [] => True
  | y :: _ => p y = false
  end.


(** Two scanner states that hold the same characters still to be read and
    the same counters; they may differ in how many of the characters are
    pushed back. *)
Definition same_view (s1 s2 : State) : Prop :=
  contents s1 = contents s2 /\
  g_line s1 = g_line s2 /\
  g_col s1 = g_col s2.

(** A scanner that does not see more of the state than [same_view] keeps. *)
Definition respects {A} (m : Lex A) : Prop :=
  forall s1 s2,
    same_view s1 s2 ->
    match m s1, m s2 with
    | Some (a1, t1), Some (a2, t2) => a1 = a2 /\ same_view t1 t2
    | None, None => True
    | _, _ => False
    end.

(** [returns P m]: whatever [m] returns satisfies [P]. *)
Definition returns {A} (P : A -> Prop) (m : Lex A) : Prop :=
  forall st a st', m st = Some (a, st') -> P a.

(** A token text as [make_token] leaves it: a C string of at most 255
    characters. *)
Definition c_text (s : list ascii) : Prop :=
  List.length s <= MAX_LEXEME_LEN - 1 /\
  forallb (fun a => negb (Ascii.eqb a NUL)) s = true.

(** The kinds of token each sub-scanner can answer. *)
Definition kind_of_start (c : cint) (ty : TokenType) : Prop :=
  match c with
  | None => ty = TOK_EOF
  | Some a =>
    if isalpha c || is_chr "_" c then ty = TOK_KEYWORD \/ ty = TOK_IDENTIFIER
    else if isdigit c then ty = TOK_INT \/ ty = TOK_FLOAT
    else if is_chr DQUOTE c then ty = TOK_STRING \/ ty = TOK_ERROR
    else if is_chr "'" c then ty = TOK_CHAR \/ ty = TOK_ERROR
    else ty = TOK_SEPARATOR \/ ty = TOK_OPERATOR \/ ty = TOK_UNKNOWN
  end.

(** A token made by [make_token] at the given position whose kind is among
    those [ok] allows. *)
Definition made_at (ok : TokenType -> Prop) (l c : Z) (t : Token) : Prop :=
  exists ty lex, t = make_token ty lex l c /\ ok ty.


(** A scanner that never takes the line counter back. *)
Definition line_mono {A} (m : Lex A) : Prop :=
  forall st a st', m st = Some (a, st') -> (g_line st <= g_line st')%Z.

(** A token sequence cut after its first [TOK_ERROR]. *)
Fixpoint until_error (ts : list Token) : list Token :=
  match ts with
  | [] => []
  | t :: ts' =>
    match type t with
    | TOK_ERROR => [t]
    | _ => t :: until_error ts'
    end
  end.

(** The state after [n] calls of [read_char]. *)
Definition drain (n : nat) (st : State) : State := Nat.iter n after_read st.

(** The line and column counters after [read_char] has read the characters
    [s], starting from line [l] and column [k]. *)
Fixpoint counters_after (s : list ascii) (l k : Z) : Z * Z :=
  match s with
  | [] => (l, k)
  | a :: s' =>
    if Ascii.eqb a NL then counters_after s' (l + 1) 0
    else counters_after s' l (k + 1)
  end.

(** [unclosed prev s]: reading [s] with [prev] as the character before it,
    the block comment loop never sees an asterisk followed by a slash. *)
Fixpoint unclosed (prev : ascii) (s : list ascii) : bool :=
  match s with
  | [] => true
  | x :: s' => negb (Ascii.eqb prev "*" && Ascii.eqb x "/") && unclosed x s'
  end.

(** A scanner whose result does not change when it is given more fuel. *)
Definition fuel_mono {A} (m : nat -> Lex A) : Prop :=
  forall f f' st r, f <= f' -> m f st = Some r -> m f' st = Some r.

(** What stands between the quotes of a character literal: one character
    that is neither a newline nor a backslash, or a backslash and one
    character that is not a newline. *)
Definition logical_char (l : list ascii) : bool :=
  match l with
  | [c] => negb (Ascii.eqb c NL) && negb (Ascii.eqb c "\")
  | [b; e] => Ascii.eqb b "\" && negb (Ascii.eqb e NL)
  | _ => false
  end.

(** The beginnings for which the character literal scanner gives up before it
    looks for the closing quote: the end of the input or a newline, at once
    or after a backslash. *)
Definition unterminated_char_body (r : list ascii) : bool :=
  match r with
  | [] => true
  | c :: r' =>
    Ascii.eqb c NL ||
    (Ascii.eqb c "\" &&
     match r' with [] => true | e :: _ => Ascii.eqb e NL end)
  end.

(** A character that belongs to no lexeme class: it is not white space, does
    not start an identifier, a number, a string or a character literal, and
    is neither a separator nor accepted by the test for one-character
    operators. *)
Definition unclassified (c : ascii) : bool :=
  negb (isspace (Some c)) &&
  negb (isalpha (Some c) || is_chr "_" (Some c)) &&
  negb (isdigit (Some c)) &&
  negb (is_chr DQUOTE (Some c)) &&
  negb (is_chr "'" (Some c)) &&
  negb (is_separator_char (Some c)) &&
  negb (strchr single_ops c).

(** The range of a C [int] on the platforms the program is built for. *)
Definition INT_MIN : Z := (-2147483648)%Z.
Definition INT_MAX : Z := 2147483647%Z.

(** The value a C [int] holds when a counter that is counted without bound
    stands at [z]: the counters are only incremented, decremented, reset and
    copied, so the program's [int] is the unbounded counter reduced to 32
    bits in two's complement. *)
Definition to_int (z : Z) : Z :=
  ((z - INT_MIN) mod 4294967296 + INT_MIN)%Z.
















(* ================================================================= *)
(** ** Reading and pushing back *)

Lemma read_char_eq (st : State) :
  read_char st = Some (hd_error (contents st), after_read st).
Proof.
  destruct st as [l k [p r h]].
  unfold after_read, read_char, fgetc, contents; simpl.
  destruct p as [|a p]; [destruct r as [|a r]|]; simpl;
    try destruct (Ascii.eqb a NL); reflexivity.
Qed.

Lemma unread_char_eq (c : cint) (st : State) :
  unread_char c st = Some (tt, after_unread c st).
Proof.
  unfold after_unread, unread_char.
  destruct c as [a|]; [destruct (Ascii.eqb a NL)|]; reflexivity.
Qed.

Lemma contents_after_read st : contents (after_read st) = tl (contents st).
Proof.
  destruct st as [l k [p r h]].
  unfold after_read, read_char, fgetc, contents; simpl.
  destruct p as [|a p]; [destruct r as [|a r]|]; simpl;
    try destruct (Ascii.eqb a NL); reflexivity.
Qed.

Lemma depth_after_read st : depth (after_read st) = pred (depth st).
Proof.
  destruct st as [l k [p r h]].
  unfold after_read, read_char, fgetc, depth; simpl.
  destruct p as [|a p]; [destruct r as [|a r]|]; simpl;
    try destruct (Ascii.eqb a NL); reflexivity.
Qed.

Lemma high_after_read st : high (after_read st) = high st.
Proof.
  destruct st as [l k [p r h]].
  unfold after_read, read_char, fgetc, high; simpl.
  destruct p as [|a p]; [destruct r as [|a r]|]; simpl;
    try destruct (Ascii.eqb a NL); reflexivity.
Qed.

Lemma after_read_eof st : contents st = [] -> after_read st = st.
Proof.
  destruct st as [l k [p r h]]; unfold contents, after_read, read_char, fgetc.
  simpl. intros H; apply app_eq_nil in H as [-> ->]; reflexivity.
Qed.

(** The counters after reading the first character of [a :: _]. *)
Lemma g_line_after_read st a l :
  contents st = a :: l ->
  g_line (after_read st) = (if Ascii.eqb a NL then g_line st + 1 else g_line st)%Z.
Proof.
  destruct st as [gl gc [p r h]]; unfold contents, after_read, read_char, fgetc.
  simpl. destruct p as [|b p]; [destruct r as [|b r]|]; simpl;
    try discriminate; intros [= -> _]; destruct (Ascii.eqb a NL); reflexivity.
Qed.

Lemma g_col_after_read st a l :
  contents st = a :: l ->
  g_col (after_read st) = (if Ascii.eqb a NL then 0 else g_col st + 1)%Z.
Proof.
  destruct st as [gl gc [p r h]]; unfold contents, after_read, read_char, fgetc.
  simpl. destruct p as [|b p]; [destruct r as [|b r]|]; simpl;
    try discriminate; intros [= -> _]; destruct (Ascii.eqb a NL); reflexivity.
Qed.

Lemma contents_after_unread c st : contents (after_unread c st) = ahead c st.
Proof.
  unfold after_unread, unread_char, ahead, contents.
  destruct c as [a|]; [destruct (Ascii.eqb a NL)|]; reflexivity.
Qed.

Lemma depth_after_unread c st :
  depth (after_unread c st) =
  match c with Some _ => S (depth st) | None => depth st end.
Proof.
  unfold after_unread, unread_char, depth.
  destruct c as [a|]; [destruct (Ascii.eqb a NL)|]; reflexivity.
Qed.

Lemma high_after_unread c st :
  high (after_unread c st) =
  match c with
  | Some _ => Nat.max (high st) (S (depth st))
  | None => high st
  end.
Proof.
  unfold after_unread, unread_char, high, depth.
  destruct c as [a|]; [destruct (Ascii.eqb a NL)|]; reflexivity.
Qed.

Lemma g_line_after_unread c st : g_line (after_unread c st) = g_line st.
Proof.
  unfold after_unread, unread_char.
  destruct c as [a|]; [destruct (Ascii.eqb a NL)|]; reflexivity.
Qed.

Lemma g_col_after_unread c st :
  g_col (after_unread c st) =
  match c with
  | Some a => if Ascii.eqb a NL then g_col st else (g_col st - 1)%Z
  | None => g_col st
  end.
Proof.
  unfold after_unread, unread_char.
  destruct c as [a|]; [destruct (Ascii.eqb a NL)|]; reflexivity.
Qed.

Lemma ahead_after_read st : ahead (hd_error (contents st)) (after_read st) = contents st.
Proof.
  unfold ahead. rewrite contents_after_read.
  destruct (contents st); reflexivity.
Qed.

Lemma reads_refl c st : reads c st c st.
Proof. split; auto. exists []; reflexivity. Qed.

Lemma reads_trans c1 s1 c2 s2 c3 s3 :
  reads c1 s1 c2 s2 -> reads c2 s2 c3 s3 -> reads c1 s1 c3 s3.
Proof.
  intros [[k1 H1] D1 P1] [[k2 H2] D2 P2]; split; [|lia|congruence].
  exists (k1 ++ k2). rewrite H1, H2, app_assoc; reflexivity.
Qed.

Lemma reads_length c st c' st' :
  reads c st c' st' -> List.length (ahead c' st') <= List.length (ahead c st).
Proof.
  intros [[k H] _ _]. rewrite H, length_app. lia.
Qed.

(** Dropping the character in hand and reading the next one. *)
Lemma reads_next a st :
  reads (Some a) st (hd_error (contents st)) (after_read st).
Proof.
  split.
  - exists [a]. rewrite ahead_after_read. reflexivity.
  - rewrite depth_after_read; lia.
  - apply high_after_read.
Qed.

Lemma reads_read st : reads None st (hd_error (contents st)) (after_read st).
Proof.
  split.
  - exists []. rewrite ahead_after_read. reflexivity.
  - rewrite depth_after_read; lia.
  - apply high_after_read.
Qed.

(* ================================================================= *)
(** ** The scanning loops *)

Section WhileRead.

Context {A : Type} (cond : cint -> A -> bool) (body : cint -> A -> A).

Hypothesis cond_eof : forall a, cond EOF a = false.

(** With at least as much fuel as characters ahead the loop runs to
    completion, and it only reads. *)
Lemma while_read_spec (fuel : nat) :
  forall c a st,
    List.length (ahead c st) <= fuel ->
    exists c' a' st',
      while_read fuel cond body c a st = Some ((c', a'), st') /\
      reads c st c' st' /\ cond c' a' = false.
Proof.
  induction fuel as [|fuel IH]; intros c a st Hf; simpl;
    destruct (cond c a) eqn:Hc.
  - destruct c as [x|]; [unfold ahead in Hf; simpl in Hf; lia|].
    rewrite cond_eof in Hc; discriminate.
  - exists c, a, st; split; [reflexivity|split; [apply reads_refl|assumption]].
  - destruct c as [x|]; [|rewrite cond_eof in Hc; discriminate].
    unfold bind; rewrite read_char_eq.
    destruct (IH (hd_error (contents st)) (body (Some x) a) (after_read st))
      as (c' & a' & st' & E' & R & Hc').
    { rewrite ahead_after_read. unfold ahead in Hf; simpl in Hf. lia. }
    exists c', a', st'; split; [exact E'|split; [|exact Hc']].
    eapply reads_trans; [apply reads_next|exact R].
  - exists c, a, st; split; [reflexivity|split; [apply reads_refl|assumption]].
Qed.

(** The invariant rule: whatever holds before the loop and is kept by one
    round holds when the loop ends. *)
Lemma while_read_invariant (P : cint -> A -> State -> Prop) (fuel : nat) :
  (forall x a st,
      P (Some x) a st -> cond (Some x) a = true ->
      P (hd_error (contents st)) (body (Some x) a) (after_read st)) ->
  forall c a st c' a' st',
    P c a st ->
    while_read fuel cond body c a st = Some ((c', a'), st') ->
    P c' a' st'.
Proof.
  intros Hstep.
  induction fuel as [|fuel IH]; intros c a st c' a' st' HP; simpl;
    destruct (cond c a) eqn:Hc; try discriminate;
    try (intros [= <- <- <-]; exact HP).
  destruct c as [x|]; [|rewrite cond_eof in Hc; discriminate].
  unfold bind; rewrite read_char_eq.
  apply IH. eapply Hstep; eassumption.
Qed.

(** More fuel does not change a result. *)
Lemma while_read_mono (fuel fuel' : nat) :
  fuel <= fuel' ->
  forall c a st r,
    while_read fuel cond body c a st = Some r ->
    while_read fuel' cond body c a st = Some r.
Proof.
  revert fuel'; induction fuel as [|fuel IH]; intros fuel' Hle c a st r;
    simpl; destruct (cond c a) eqn:Hc; try discriminate.
  - destruct fuel'; simpl; rewrite Hc; auto.
  - destruct fuel' as [|fuel']; [lia|]. simpl; rewrite Hc.
    unfold bind. destruct (read_char st) as [[c1 st1]|]; [|discriminate].
    apply IH; lia.
  - destruct fuel'; simpl; rewrite Hc; auto.
Qed.

End WhileRead.

Lemma reads_drop c st c' st' : reads c st c' st' -> reads c st None st'.
Proof.
  intros [[k H] D P]; split; auto.
  destruct c' as [a|]; [exists (k ++ [a])|exists k]; rewrite H; simpl; auto.
  rewrite <- app_assoc; reflexivity.
Qed.

Lemma reads_remaining st st' :
  reads None st None st' -> remaining st' <= remaining st.
Proof. intros R; apply reads_length in R; exact R. Qed.

Lemma is_chr_true x c : is_chr x c = true -> c = Some x.
Proof.
  destruct c as [a|]; simpl; [|discriminate].
  intros H; apply Ascii.eqb_eq in H; congruence.
Qed.

(* ================================================================= *)
(** ** The layout skipper *)

Lemma skipped_after_reads st st1 st' :
  reads None st None st1 -> skipped st1 st' -> skipped st st'.
Proof.
  intros [[k1 H1] D1 P1] [[k2 H2] D2 P2]; simpl in H1; split.
  - exists (k1 ++ k2). rewrite H1, H2, app_assoc; reflexivity.
  - intros; apply D2; lia.
  - intros; rewrite <- P1; apply P2; lia.
Qed.

Lemma ws_cond_eof : forall a, ws_cond EOF a = false.
Proof. reflexivity. Qed.

Lemma line_comment_cond_eof : forall a, line_comment_cond EOF a = false.
Proof. reflexivity. Qed.

Lemma block_comment_cond_eof : forall a, block_comment_cond EOF a = false.
Proof. reflexivity. Qed.

Lemma skip_spec (fuel : nat) :
  forall st,
    remaining st < fuel ->
    exists st',
      skip_whitespace_and_comments fuel st = Some (tt, st') /\ skipped st st'.
Proof.
  induction fuel as [|fuel IH]; intros st Hf; [lia|].
  simpl. unfold bind at 1. rewrite read_char_eq.
  pose proof (reads_read st) as R0.
  set (c0 := hd_error (contents st)) in *. set (st0 := after_read st) in *.
  destruct (while_read_spec ws_cond keep ws_cond_eof fuel c0 tt st0)
    as (c & [] & st1 & E1 & R1 & _).
  { apply reads_length in R0. simpl in R0. unfold remaining in Hf. lia. }
  unfold bind at 1. rewrite E1. cbn [fst].
  pose proof (reads_trans _ _ _ _ _ _ R0 R1) as R.
  assert (D1 : depth st <= 1 -> depth st1 = 0).
  { intros. apply reads_depth in R1. unfold st0 in R1.
    rewrite depth_after_read in R1. lia. }
  assert (Hh1 : high st1 = high st) by (apply reads_high in R; exact R).
  destruct (is_chr "/" c) eqn:Hslash.
  - apply is_chr_true in Hslash; subst c.
    assert (Hlen : S (remaining st1) <= remaining st).
    { apply reads_length in R. exact R. }
    unfold bind at 1. rewrite read_char_eq.
    pose proof (reads_trans _ _ _ _ _ _ R (reads_next "/" st1)) as R2.
    set (next := hd_error (contents st1)) in *.
    set (st2 := after_read st1) in *.
    assert (Hlen2 : remaining st2 <= remaining st1).
    { unfold st2, remaining. rewrite contents_after_read.
      destruct (contents st1); simpl; lia. }
    assert (Comment : forall B (cond : cint -> B -> bool) body b,
               (forall a, cond EOF a = false) ->
               exists st',
                 (ch <- read_char ;;
                  while_read fuel cond body ch b ;;;
                  skip_whitespace_and_comments fuel) st2 = Some (tt, st') /\
                 skipped st st').
    { intros B cond body b Heof.
      unfold bind at 1. rewrite read_char_eq.
      pose proof (reads_read st2) as R3.
      set (ch := hd_error (contents st2)) in *.
      set (st3 := after_read st2) in *.
      destruct (while_read_spec cond body Heof fuel ch b st3)
        as (c4 & b4 & st4 & E4 & R4 & _).
      { apply reads_length in R3. simpl in R3. unfold remaining in *. lia. }
      unfold bind at 1. rewrite E4.
      pose proof (reads_drop _ _ _ _ (reads_trans _ _ _ _ _ _ R3 R4)) as R5.
      pose proof (reads_drop _ _ _ _ R2) as R6.
      pose proof (reads_trans _ _ _ _ _ _ R6 R5) as R7.
      destruct (IH st4) as (st' & E' & S').
      { apply reads_remaining in R5. lia. }
      exists st'; split; [exact E'|].
      eapply skipped_after_reads; eassumption. }
    destruct (is_chr "/" next) eqn:Hn1;
      [apply Comment; exact line_comment_cond_eof|].
    destruct (is_chr "*" next) eqn:Hn2;
      [apply Comment; exact block_comment_cond_eof|].
    unfold bind. rewrite !unread_char_eq.
    eexists; split; [reflexivity|].
    assert (D2 : depth st <= 1 -> depth st2 = 0).
    { intros H. unfold st2. rewrite depth_after_read. rewrite (D1 H).
      reflexivity. }
    assert (Hh2 : high st2 = high st).
    { unfold st2. rewrite high_after_read. exact Hh1. }
    split.
    + destruct R as [[k Hk] _ _]. exists k.
      rewrite contents_after_unread. unfold ahead at 1.
      rewrite contents_after_unread. unfold next, st2.
      rewrite ahead_after_read. exact Hk.
    + intros H. rewrite contents_after_unread, !depth_after_unread.
      rewrite (D2 H). simpl. destruct next; auto.
    + intros H. rewrite !high_after_unread, depth_after_unread.
      rewrite (D2 H), Hh2. destruct next; lia.
  - rewrite unread_char_eq. eexists; split; [reflexivity|].
    split.
    + destruct R as [[k Hk] _ _]. exists k.
      rewrite contents_after_unread. exact Hk.
    + intros H. rewrite depth_after_unread, (D1 H). destruct c; auto.
    + intros H. rewrite high_after_unread, (D1 H), Hh1. destruct c; lia.
Qed.

(* ================================================================= *)
(** ** The sub-scanners *)

Lemma while_read_enter {A} (cond : cint -> A -> bool) body fuel c a st :
  cond c a = true ->
  while_read (S fuel) cond body c a st =
  while_read fuel cond body (hd_error (contents st)) (body c a) (after_read st).
Proof.
  intros H; simpl; rewrite H. unfold bind; rewrite read_char_eq; reflexivity.
Qed.

Lemma ident_cond_eof : forall a, ident_cond EOF a = false.
Proof. reflexivity. Qed.

Lemma digit_cond_eof : forall a, digit_cond EOF a = false.
Proof. reflexivity. Qed.

Lemma reads_step st st' :
  reads None st None st' -> reads None st None (after_read st').
Proof.
  intros R. eapply reads_trans; [exact R|].
  apply reads_drop with (c' := hd_error (contents st')). apply reads_read.
Qed.

Ltac solve_reads := repeat first [apply reads_refl | apply reads_step].

(** A sub-scanner that has taken the first character, then only read, and at
    the end pushed back at most the character in hand. *)
Lemma scanned_intro st t c' st' :
  type t <> TOK_EOF ->
  contents st <> [] ->
  reads None (after_read st) c' st' ->
  scanned st t (after_unread c' st').
Proof.
  intros Ht Hne [[k Hk] D P].
  rewrite depth_after_read in D. rewrite high_after_read in P.
  split; auto.
  - destruct (contents st) as [|a l] eqn:Hst; [contradiction|].
    exists a, k. rewrite contents_after_unread, <- Hk. simpl.
    rewrite contents_after_read, Hst. reflexivity.
  - intros Hd. rewrite depth_after_unread. destruct c'; lia.
  - intros Hd. rewrite high_after_unread. destruct c'; lia.
Qed.

Lemma scanned_intro_eof st t st' :
  type t <> TOK_EOF ->
  contents st <> [] ->
  reads None (after_read st) None st' ->
  scanned st t st'.
Proof. intros Ht Hne R. exact (scanned_intro st t None st' Ht Hne R). Qed.

Lemma remaining_cons st a l fuel :
  contents st = a :: l -> remaining st <= fuel -> S (List.length l) <= fuel.
Proof. unfold remaining; intros ->; simpl; lia. Qed.

Lemma read_identifier_or_keyword_spec (fuel : nat) (st : State) :
  remaining st <= fuel ->
  ident_cond (hd_error (contents st)) [] = true ->
  exists t st',
    read_identifier_or_keyword fuel st = Some (t, st') /\ scanned st t st'.
Proof.
  intros Hf Hc. unfold read_identifier_or_keyword.
  unfold bind at 1, get_line. unfold bind at 1, get_col.
  unfold bind at 1. rewrite read_char_eq.
  destruct (contents st) as [|a l] eqn:Hst; [discriminate|].
  cbn [hd_error] in *.
  pose proof (remaining_cons _ _ _ _ Hst Hf) as Hl.
  destruct fuel as [|fuel]; [lia|].
  unfold bind at 1. rewrite (while_read_enter _ _ _ _ _ _ Hc).
  pose proof (contents_after_read st) as H1. rewrite Hst in H1; simpl in H1.
  set (st1 := after_read st) in *.
  destruct (while_read_spec ident_cond (store (MAX_LEXEME_LEN - 1))
              ident_cond_eof fuel (hd_error (contents st1))
              (store (MAX_LEXEME_LEN - 1) (Some a) []) (after_read st1))
    as (c' & buf & st3 & E & R & _).
  { rewrite ahead_after_read, H1. lia. }
  rewrite E. unfold bind at 1. rewrite unread_char_eq.
  assert (S : forall t, type t <> TOK_EOF -> scanned st t (after_unread c' st3)).
  { intros t Ht. apply scanned_intro; [exact Ht|congruence|].
    eapply reads_trans; [apply reads_read|exact R]. }
  destruct (negb (is_keyword buf) && (MAX_ID_LEN <? List.length (cstr buf))%nat);
    [|destruct (is_keyword buf)];
    eexists _, _; (split; [reflexivity|]); apply S; discriminate.
Qed.

Lemma read_number_spec (fuel : nat) (st : State) :
  remaining st <= fuel ->
  isdigit (hd_error (contents st)) = true ->
  exists t st', read_number fuel st = Some (t, st') /\ scanned st t st'.
Proof.
  intros Hf Hc. unfold read_number.
  unfold bind at 1, get_line. unfold bind at 1, get_col.
  unfold bind at 1. rewrite read_char_eq.
  destruct (contents st) as [|a l] eqn:Hst; [discriminate|].
  cbn [hd_error] in *.
  pose proof (remaining_cons _ _ _ _ Hst Hf) as Hl.
  destruct fuel as [|fuel]; [lia|].
  unfold bind at 1.
  rewrite (while_read_enter digit_cond _ _ _ [] _ Hc).
  pose proof (contents_after_read st) as H1. rewrite Hst in H1; simpl in H1.
  set (st1 := after_read st) in *.
  destruct (while_read_spec digit_cond (store (MAX_LEXEME_LEN - 1))
              digit_cond_eof fuel (hd_error (contents st1))
              (store (MAX_LEXEME_LEN - 1) (Some a) []) (after_read st1))
    as (c & buf & st3 & E & R & _).
  { rewrite ahead_after_read, H1. lia. }
  rewrite E.
  pose proof (reads_trans _ _ _ _ _ _ (reads_read st1) R) as R1.
  destruct (is_chr "." c) eqn:Hdot.
  - apply is_chr_true in Hdot; subst c.
    unfold bind at 1. rewrite read_char_eq.
    pose proof (reads_trans _ _ _ _ _ _ R1 (reads_next "." st3)) as R2.
    destruct (while_read_spec digit_cond (store (MAX_LEXEME_LEN - 1))
                digit_cond_eof (S fuel) (hd_error (contents st3))
                (push (MAX_LEXEME_LEN - 1) "." buf) (after_read st3))
      as (c5 & buf5 & st5 & E5 & R5 & _).
    { apply reads_length in R2. simpl in R2. rewrite H1 in R2. lia. }
    unfold bind at 1. rewrite E5. unfold bind at 1. rewrite unread_char_eq.
    eexists _, _; split; [reflexivity|].
    apply scanned_intro; [discriminate|congruence|].
    eapply reads_trans; [exact R2|exact R5].
  - unfold bind at 1. rewrite unread_char_eq.
    eexists _, _; split; [reflexivity|].
    apply scanned_intro; [discriminate|congruence|exact R1].
Qed.

Lemma read_string_loop_spec (fuel : nat) (sl sc : Z) :
  forall c buf st,
    List.length (ahead c st) <= fuel ->
    exists t st',
      read_string_loop fuel c buf sl sc st = Some (t, st') /\
      type t <> TOK_EOF /\ reads c st None st'.
Proof.
  induction fuel as [|fuel IH]; intros c buf st Hf.
  - destruct c as [a|]; [simpl in Hf; lia|].
    simpl. eexists _, _; split; [reflexivity|split; [discriminate|]].
    apply reads_refl.
  - destruct c as [a|]; simpl.
    2:{ eexists _, _; split; [reflexivity|split; [discriminate|]].
        apply reads_refl. }
    destruct (Ascii.eqb a DQUOTE).
    { eexists _, _; split; [reflexivity|split; [discriminate|]].
      apply reads_drop with (c' := Some a); apply reads_refl. }
    destruct (Ascii.eqb a NL).
    { eexists _, _; split; [reflexivity|split; [discriminate|]].
      apply reads_drop with (c' := Some a); apply reads_refl. }
    simpl in Hf.
    destruct (Ascii.eqb a "\").
    + unfold bind at 1. rewrite read_char_eq.
      pose proof (reads_next a st) as R1.
      destruct (hd_error (contents st)) as [e|] eqn:He.
      * unfold bind at 1. rewrite read_char_eq.
        set (st1 := after_read st) in *.
        pose proof (reads_trans _ _ _ _ _ _ R1 (reads_next e st1)) as R2.
        destruct (IH (hd_error (contents st1))
                    (push (MAX_LEXEME_LEN - 2) e
                       (push (MAX_LEXEME_LEN - 2) a buf)) (after_read st1))
          as (t & st' & E & Ht & R).
        { rewrite ahead_after_read. unfold st1. rewrite contents_after_read.
          destruct (contents st); simpl in *; lia. }
        exists t, st'; split; [exact E|split; [exact Ht|]].
        eapply reads_trans; eassumption.
      * eexists _, _; split; [reflexivity|split; [discriminate|]].
        apply reads_drop in R1. exact R1.
    + unfold bind at 1. rewrite read_char_eq.
      pose proof (reads_next a st) as R1.
      destruct (IH (hd_error (contents st))
                  (push (MAX_LEXEME_LEN - 1) a buf) (after_read st))
        as (t & st' & E & Ht & R).
      { rewrite ahead_after_read. lia. }
      exists t, st'; split; [exact E|split; [exact Ht|]].
      eapply reads_trans; eassumption.
Qed.

Lemma read_string_spec (fuel : nat) (st : State) :
  remaining st <= fuel ->
  contents st <> [] ->
  exists t st', read_string fuel st = Some (t, st') /\ scanned st t st'.
Proof.
  intros Hf Hne. unfold read_string.
  unfold bind at 1, get_line. unfold bind at 1, get_col.
  unfold bind at 1. rewrite read_char_eq.
  unfold bind at 1. rewrite read_char_eq.
  set (st1 := after_read st).
  destruct (read_string_loop_spec fuel (g_line st) (g_col st + 1)
              (hd_error (contents st1)) [] (after_read st1))
    as (t & st' & E & Ht & R).
  { rewrite ahead_after_read. unfold st1. rewrite contents_after_read.
    unfold remaining in Hf. destruct (contents st); simpl in *; lia. }
  exists t, st'; split; [exact E|].
  apply scanned_intro_eof; auto.
  eapply reads_trans; [apply reads_read|exact R].
Qed.

Lemma read_char_literal_spec (st : State) :
  contents st <> [] ->
  exists t st', read_char_literal st = Some (t, st') /\ scanned st t st'.
Proof.
  intros Hne. unfold read_char_literal.
  unfold bind at 1, get_line. unfold bind at 1, get_col.
  unfold bind at 1. rewrite read_char_eq.
  unfold bind at 1. rewrite read_char_eq.
  set (st1 := after_read st).
  destruct (hd_error (contents st1)) as [a|].
  2:{ eexists _, _; split; [reflexivity|].
      apply scanned_intro_eof; auto; try discriminate. solve_reads. }
  destruct (Ascii.eqb a NL).
  { eexists _, _; split; [reflexivity|].
    apply scanned_intro_eof; auto; try discriminate. solve_reads. }
  unfold bind at 1.
  destruct (Ascii.eqb a "\").
  - unfold bind at 1. rewrite read_char_eq.
    destruct (hd_error (contents (after_read st1))) as [e|].
    2:{ eexists _, _; split; [reflexivity|].
        apply scanned_intro_eof; auto; try discriminate. solve_reads. }
    destruct (Ascii.eqb e NL).
    { eexists _, _; split; [reflexivity|].
      apply scanned_intro_eof; auto; try discriminate. solve_reads. }
    unfold ret at 1. unfold bind at 1. rewrite read_char_eq.
    match goal with |- context [negb ?b] => destruct b end;
      (eexists _, _; split; [reflexivity|]);
      apply scanned_intro_eof; auto; try discriminate; solve_reads.
  - unfold ret at 1. unfold bind at 1. rewrite read_char_eq.
    match goal with |- context [negb ?b] => destruct b end;
      (eexists _, _; split; [reflexivity|]);
      apply scanned_intro_eof; auto; try discriminate; solve_reads.
Qed.

Lemma read_operator_or_separator_spec (st : State) :
  contents st <> [] ->
  exists t st', read_operator_or_separator st = Some (t, st') /\ scanned st t st'.
Proof.
  intros Hne. unfold read_operator_or_separator.
  unfold bind at 1, get_line. unfold bind at 1, get_col.
  unfold bind at 1. rewrite read_char_eq.
  destruct (is_separator_char (hd_error (contents st))).
  { eexists _, _; split; [reflexivity|].
    apply scanned_intro_eof; auto; try discriminate. solve_reads. }
  unfold bind at 1. rewrite read_char_eq.
  match goal with |- context [existsb ?f ?l] => destruct (existsb f l) end.
  { eexists _, _; split; [reflexivity|].
    apply scanned_intro_eof; auto; try discriminate. solve_reads. }
  unfold bind at 1. rewrite unread_char_eq.
  match goal with |- context [strchr ?s ?c] => destruct (strchr s c) end;
    (eexists _, _; split; [reflexivity|]);
    (apply scanned_intro; [discriminate|assumption|apply reads_read]).
Qed.

(** After a slash the operator scanner reads two characters before it pushes
    one back, so a pushback of depth two is used up. *)
Lemma read_operator_or_separator_slash (st : State) t st' :
  hd_error (contents st) = Some "/" ->
  depth st <= 2 ->
  read_operator_or_separator st = Some (t, st') ->
  depth st' <= 1 /\ high st' <= Nat.max (high st) 1.
Proof.
  intros Hhd Hd. unfold read_operator_or_separator.
  unfold bind at 1, get_line. unfold bind at 1, get_col.
  unfold bind at 1. rewrite read_char_eq, Hhd.
  cbn [is_separator_char is_chr Ascii.eqb Bool.eqb orb].
  unfold bind at 1. rewrite read_char_eq.
  assert (D : depth (after_read (after_read st)) = 0)
    by (rewrite !depth_after_read; lia).
  assert (P : high (after_read (after_read st)) = high st)
    by (rewrite !high_after_read; reflexivity).
  match goal with |- context [existsb ?f ?l] => destruct (existsb f l) end.
  { intros [= _ <-]. lia. }
  unfold bind at 1. rewrite unread_char_eq.
  match goal with |- context [strchr ?s ?c] => destruct (strchr s c) end;
    intros [= _ <-];
    rewrite depth_after_unread, high_after_unread, D, P;
    destruct (hd_error (contents (after_read st))); lia.
Qed.

(* ================================================================= *)
(** ** One call of [next_token] *)

Lemma contents_peeked st a l :
  contents st = a :: l -> contents (peeked (Some a) st) = a :: l.
Proof.
  intros H. unfold peeked.
  rewrite contents_after_unread; unfold ahead.
  rewrite contents_after_read, contents_after_unread; unfold ahead.
  rewrite contents_after_read, H. reflexivity.
Qed.

Lemma depth_peeked st a : depth (peeked (Some a) st) = S (pred (depth st)).
Proof.
  unfold peeked.
  rewrite depth_after_unread, depth_after_read, depth_after_unread.
  rewrite depth_after_read. reflexivity.
Qed.

Lemma high_peeked st a :
  high (peeked (Some a) st) = Nat.max (high st) (S (pred (depth st))).
Proof.
  unfold peeked.
  repeat first [rewrite high_after_unread | rewrite high_after_read
               | rewrite depth_after_unread | rewrite depth_after_read].
  lia.
Qed.

Lemma lexed_intro st st1 a l t st' :
  skipped st st1 ->
  contents st1 = a :: l ->
  scanned (peeked (Some a) st1) t st' ->
  (a = "/"%char -> depth st1 <= 2 ->
   depth st' <= 1 /\ high st' <= Nat.max (high (peeked (Some a) st1)) 1) ->
  lexed st t st'.
Proof.
  intros [[k Hk] D P] H1 [Ht [b [k' Hk']] D' P'] Hslash.
  rewrite (contents_peeked _ _ _ H1) in Hk'.
  rewrite depth_peeked in D', P'. rewrite high_peeked in P', Hslash.
  assert (Hst : contents st = (k ++ b :: k') ++ contents st').
  { rewrite Hk, H1, Hk', <- app_assoc. reflexivity. }
  split.
  - eexists; exact Hst.
  - intros _. unfold remaining. rewrite Hst, !length_app. simpl. lia.
  - intros; contradiction.
  - intros Hd. destruct (D Hd) as [D1|[D2 Hhd]]; [apply D'; lia|].
    rewrite H1 in Hhd; injection Hhd as ->. apply Hslash; auto; lia.
  - intros Hd. specialize (P Hd).
    destruct (D Hd) as [D1|[D2 Hhd]]; [specialize (P' ltac:(lia)); lia|].
    rewrite H1 in Hhd; injection Hhd as ->.
    destruct Hslash as [_ Hs]; auto; lia.
Qed.

Lemma next_token_fuel_spec (fuel : nat) (st : State) :
  remaining st < fuel ->
  exists t st', next_token_fuel fuel st = Some (t, st') /\ lexed st t st'.
Proof.
  intros Hf. destruct (skip_spec fuel st Hf) as (st1 & E1 & S1).
  unfold next_token_fuel. unfold bind at 1. rewrite E1.
  unfold bind at 1. rewrite read_char_eq.
  destruct (contents st1) as [|a l] eqn:H1; cbn [hd_error].
  - rewrite (after_read_eof _ H1).
    eexists _, _; split; [reflexivity|].
    destruct S1 as [[k Hk] D P]. split.
    + exists k; exact Hk.
    + intros Ht; exfalso; apply Ht; reflexivity.
    + intros _; exact H1.
    + intros Hd. destruct (D Hd) as [|[D2 Hhd]]; [assumption|].
      rewrite H1 in Hhd; discriminate.
    + exact P.
  - unfold bind at 1. rewrite unread_char_eq.
    unfold bind at 1. rewrite read_char_eq.
    assert (H2 : contents (after_unread (Some a) (after_read st1)) = a :: l).
    { rewrite contents_after_unread; unfold ahead.
      rewrite contents_after_read, H1. reflexivity. }
    rewrite H2; cbn [hd_error].
    unfold bind at 1. rewrite unread_char_eq.
    fold (peeked (Some a) st1).
    pose proof (contents_peeked _ _ _ H1) as H4.
    assert (Hne : contents (peeked (Some a) st1) <> []) by congruence.
    assert (Hf4 : remaining (peeked (Some a) st1) <= fuel).
    { unfold remaining in *. rewrite H4, <- H1.
      destruct S1 as [[k Hk] _ _]. rewrite Hk, length_app in Hf. lia. }
    assert (Hcase :
      forall m : Lex Token,
        (a <> "/"%char \/ m = read_operator_or_separator) ->
        (exists t st', m (peeked (Some a) st1) = Some (t, st') /\
                       scanned (peeked (Some a) st1) t st') ->
        exists t st', m (peeked (Some a) st1) = Some (t, st') /\ lexed st t st').
    { intros m Hm (t & st' & E & Sc). exists t, st'; split; [exact E|].
      eapply lexed_intro; try eassumption.
      intros -> Hd. destruct Hm as [Hm| ->]; [contradiction|].
      eapply read_operator_or_separator_slash; [| |exact E].
      - rewrite H4; reflexivity.
      - rewrite depth_peeked; lia. }
    destruct (isalpha (Some a) || is_chr "_" (Some a)) eqn:Hid.
    { apply Hcase.
      - left; intros ->; discriminate.
      - apply read_identifier_or_keyword_spec; [exact Hf4|].
        rewrite H4; cbn [hd_error]. unfold ident_cond, isalnum.
        apply orb_true_iff in Hid as [->| ->]; auto using orb_true_r. }
    destruct (isdigit (Some a)) eqn:Hdig.
    { apply Hcase.
      - left; intros ->; discriminate.
      - apply read_number_spec; [exact Hf4|]. rewrite H4; exact Hdig. }
    destruct (is_chr DQUOTE (Some a)) eqn:Hdq.
    { apply Hcase.
      - left; intros ->; discriminate.
      - apply read_string_spec; assumption. }
    destruct (is_chr "'" (Some a)) eqn:Hsq.
    { apply Hcase.
      - left; intros ->; discriminate.
      - apply read_char_literal_spec; assumption. }
    apply Hcase; [right; reflexivity|].
    apply read_operator_or_separator_spec; assumption.
Qed.

(** [next_token] always returns. *)
Lemma next_token_spec (st : State) :
  exists t st', next_token st = Some (t, st') /\ lexed st t st'.
Proof. apply next_token_fuel_spec. lia. Qed.

Lemma skip_at_eof (fuel : nat) (st : State) :
  contents st = [] ->
  skip_whitespace_and_comments (S fuel) st = Some (tt, st).
Proof.
  intros H. simpl. unfold bind at 1. rewrite read_char_eq, H.
  cbn [hd_error]. rewrite (after_read_eof _ H).
  destruct fuel; reflexivity.
Qed.

(** At end of input [next_token] answers [TOK_EOF] and changes nothing. *)
Lemma next_token_at_eof (st : State) :
  contents st = [] ->
  next_token st =
  Some (make_token TOK_EOF (str "EOF") (g_line st) (g_col st), st).
Proof.
  intros H. unfold next_token, remaining. rewrite H.
  unfold next_token_fuel. cbn [List.length Nat.add].
  unfold bind at 1. rewrite (skip_at_eof _ _ H).
  unfold bind at 1. rewrite read_char_eq, H.
  cbn [hd_error]. rewrite (after_read_eof _ H).
  reflexivity.
Qed.

(* ================================================================= *)
(** ** Sequences of calls *)

Lemma consumed_spec st st' k :
  contents st = k ++ contents st' -> consumed st st' = k.
Proof.
  intros H. unfold consumed, remaining. rewrite H, length_app.
  replace (List.length k + List.length (contents st') - List.length (contents st'))
    with (List.length k + 0) by lia.
  rewrite firstn_app_2. simpl. apply app_nil_r.
Qed.

Lemma next_token_chunk_spec (st : State) :
  exists t st',
    next_token_chunk st = Some ((t, consumed st st'), st') /\
    next_token st = Some (t, st') /\
    lexed st t st' /\
    contents st = consumed st st' ++ contents st'.
Proof.
  destruct (next_token_spec st) as (t & st' & E & L).
  exists t, st'. unfold next_token_chunk. rewrite E.
  split; [reflexivity|split; [reflexivity|split; [exact L|]]].
  destruct (lexed_suffix _ _ _ L) as [k Hk].
  rewrite (consumed_spec _ _ _ Hk). exact Hk.
Qed.

Lemma ends_with_eof_cons t ts :
  type t <> TOK_EOF -> ends_with_eof ts -> ends_with_eof (t :: ts).
Proof.
  intros Ht (front & last & -> & Hl & Hf).
  exists (t :: front), last; repeat split; auto.
Qed.

Lemma scan_loop_spec (fuel : nat) :
  forall st,
    remaining st < fuel ->
    exists tcs st',
      scan_loop fuel st = Some (tcs, st') /\
      concat (map snd tcs) = contents st /\
      List.length tcs <= S (remaining st) /\
      ends_with_eof (map fst tcs).
Proof.
  induction fuel as [|fuel IH]; intros st Hf; [lia|].
  destruct (next_token_chunk_spec st) as (t & st1 & E & _ & L & Hc).
  simpl. unfold bind at 1. rewrite E. cbn [fst].
  assert (Heof : type t = TOK_EOF ->
    exists tcs st',
      ret [(t, consumed st st1)] st1 = Some (tcs, st') /\
      concat (map snd tcs) = contents st /\
      List.length tcs <= S (remaining st) /\
      ends_with_eof (map fst tcs)).
  { intros Ht. eexists _, _; split; [reflexivity|]. simpl.
    repeat split.
    - rewrite app_nil_r. pose proof Hc as Hc'.
      rewrite (lexed_eof _ _ _ L Ht), app_nil_r in Hc'. symmetry; exact Hc'.
    - lia.
    - exists [], t; repeat split; auto. }
  assert (Hmore : type t <> TOK_EOF ->
    exists tcs st',
      (tcs <- scan_loop fuel ;; ret ((t, consumed st st1) :: tcs)) st1 =
        Some (tcs, st') /\
      concat (map snd tcs) = contents st /\
      List.length tcs <= S (remaining st) /\
      ends_with_eof (map fst tcs)).
  { intros Ht. pose proof (lexed_progress _ _ _ L Ht) as Hp.
    destruct (IH st1) as (tcs & st' & E' & Hcat & Hlen & Hend); [lia|].
    unfold bind. rewrite E'.
    eexists _, _; split; [reflexivity|]. simpl. repeat split.
    - rewrite Hcat. symmetry; exact Hc.
    - lia.
    - apply ends_with_eof_cons; assumption. }
  destruct (type t) eqn:Ht; first [apply Heof; reflexivity | apply Hmore; discriminate].
Qed.

Lemma scan_loop_mono (fuel : nat) :
  forall fuel' st r,
    fuel <= fuel' ->
    scan_loop fuel st = Some r -> scan_loop fuel' st = Some r.
Proof.
  induction fuel as [|fuel IH]; intros fuel' st r Hle; [discriminate|].
  destruct fuel' as [|fuel']; [lia|]. simpl. intros H.
  unfold bind at 1 in H. unfold bind at 1.
  destruct (next_token_chunk st) as [[[t k] st1]|]; [|discriminate].
  revert H. cbn [fst].
  assert (Hmore :
    (tcs <- scan_loop fuel ;; ret ((t, k) :: tcs)) st1 = Some r ->
    (tcs <- scan_loop fuel' ;; ret ((t, k) :: tcs)) st1 = Some r).
  { unfold bind.
    destruct (scan_loop fuel st1) as [[tcs st2]|] eqn:E; [|discriminate].
    rewrite (IH fuel' st1 _ ltac:(lia) E). auto. }
  destruct (type t); first [exact Hmore | exact (fun H => H)].
Qed.

Lemma main_loop_mono (fuel : nat) :
  forall fuel' st r,
    fuel <= fuel' ->
    main_loop fuel st = Some r -> main_loop fuel' st = Some r.
Proof.
  induction fuel as [|fuel IH]; intros fuel' st r Hle; [discriminate|].
  destruct fuel' as [|fuel']; [lia|]. simpl. intros H.
  unfold bind at 1 in H. unfold bind at 1.
  destruct (next_token st) as [[t st1]|]; [|discriminate].
  revert H.
  assert (Hmore :
    (ts <- main_loop fuel ;; ret (t :: ts)) st1 = Some r ->
    (ts <- main_loop fuel' ;; ret (t :: ts)) st1 = Some r).
  { unfold bind.
    destruct (main_loop fuel st1) as [[ts st2]|] eqn:E; [|discriminate].
    rewrite (IH fuel' st1 _ ltac:(lia) E). auto. }
  destruct (type t); first [exact Hmore | exact (fun H => H)].
Qed.

Lemma main_loop_total (fuel : nat) :
  forall st, remaining st < fuel -> exists r, main_loop fuel st = Some r.
Proof.
  induction fuel as [|fuel IH]; intros st Hf; [lia|].
  destruct (next_token_spec st) as (t & st1 & E & L).
  simpl. unfold bind at 1. rewrite E.
  assert (Hmore : type t <> TOK_EOF ->
    exists r, (ts <- main_loop fuel ;; ret (t :: ts)) st1 = Some r).
  { intros Ht. pose proof (lexed_progress _ _ _ L Ht) as Hp.
    destruct (IH st1) as ([ts st2] & E'); [lia|].
    unfold bind. rewrite E'. eexists; reflexivity. }
  destruct (type t) eqn:Ht;
    first [eexists; reflexivity | apply Hmore; discriminate].
Qed.

Lemma calls_spec (n : nat) :
  forall st,
    depth st <= 1 ->
    exists ts st',
      calls n st = Some (ts, st') /\
      List.length ts = n /\
      depth st' <= 1 /\ high st' <= Nat.max (high st) 2.
Proof.
  induction n as [|n IH]; intros st Hd; simpl.
  - eexists _, _; split; [reflexivity|]. repeat split; auto; lia.
  - destruct (next_token_spec st) as (t & st1 & E & L).
    unfold bind at 1. rewrite E.
    pose proof (lexed_depth _ _ _ L Hd) as Hd1.
    pose proof (lexed_high _ _ _ L Hd) as Hh1.
    destruct (IH st1 Hd1) as (ts & st' & E' & Hlen & Hd' & Hh').
    unfold bind. rewrite E'. eexists _, _; split; [reflexivity|].
    simpl. repeat split; auto; lia.
Qed.

Lemma calls_after_eof (n : nat) :
  forall st,
    contents st = [] ->
    exists ts,
      calls n st = Some (ts, st) /\
      List.length ts = n /\
      Forall (fun t => type t = TOK_EOF) ts.
Proof.
  induction n as [|n IH]; intros st H; simpl.
  - exists []; repeat split; auto.
  - unfold bind at 1. rewrite (next_token_at_eof _ H).
    destruct (IH st H) as (ts & E & Hlen & Hall).
    unfold bind. rewrite E. eexists; split; [reflexivity|].
    simpl; split; [lia|]. constructor; auto.
Qed.

(* ================================================================= *)
(** ** Scanning a known prefix *)

Lemma peek1_spec a l st :
  contents st = a :: l ->
  Ascii.eqb a NL = false ->
  contents (peek1 a st) = a :: l /\
  g_line (peek1 a st) = g_line st /\
  g_col (peek1 a st) = g_col st.
Proof.
  intros H Hnl. unfold peek1. repeat split.
  - rewrite contents_after_unread. unfold ahead.
    rewrite contents_after_read, H. reflexivity.
  - rewrite g_line_after_unread, (g_line_after_read _ _ _ H), Hnl. reflexivity.
  - rewrite g_col_after_unread, (g_col_after_read _ _ _ H), Hnl. lia.
Qed.

Lemma isspace_NL a : isspace (Some a) = false -> Ascii.eqb a NL = false.
Proof.
  destruct (Ascii.eqb a NL) eqn:E; auto.
  apply Ascii.eqb_eq in E; subst a. discriminate.
Qed.

Lemma skip_no_layout (fuel : nat) st a l :
  contents st = a :: l ->
  isspace (Some a) = false ->
  Ascii.eqb a "/" = false ->
  skip_whitespace_and_comments (S fuel) st = Some (tt, peek1 a st).
Proof.
  intros H Hsp Hsl. simpl. unfold bind at 1. rewrite read_char_eq, H.
  cbn [hd_error].
  assert (W : while_read fuel ws_cond keep (Some a) tt (after_read st) =
              Some ((Some a, tt), after_read st)).
  { destruct fuel; cbn [while_read]; unfold ws_cond at 1; rewrite Hsp;
      reflexivity. }
  unfold bind at 1. rewrite W. cbn [fst is_chr]. rewrite Hsl.
  apply unread_char_eq.
Qed.


Lemma skip_mono (fuel : nat) :
  forall fuel' st r,
    fuel <= fuel' ->
    skip_whitespace_and_comments fuel st = Some r ->
    skip_whitespace_and_comments fuel' st = Some r.
Proof.
  induction fuel as [|fuel IH]; intros fuel' st r Hle; [discriminate|].
  destruct fuel' as [|fuel']; [lia|].
  assert (Hle' : fuel <= fuel') by lia.
  simpl. intros H. unfold bind at 1 in H. unfold bind at 1.
  rewrite read_char_eq in *.
  unfold bind at 1 in H. unfold bind at 1.
  destruct (while_read fuel ws_cond keep (hd_error (contents st)) tt
              (after_read st)) as [[[c []] st1]|] eqn:E1; [|discriminate].
  rewrite (while_read_mono _ _ fuel fuel' Hle' _ _ _ _ E1).
  cbn [fst] in *.
  destruct (is_chr "/" c); [|exact H].
  unfold bind at 1 in H. unfold bind at 1. rewrite read_char_eq in *.
  assert (Comment : forall B (cond : cint -> B -> bool) body b s,
    (ch <- read_char ;; while_read fuel cond body ch b ;;;
     skip_whitespace_and_comments fuel) s = Some r ->
    (ch <- read_char ;; while_read fuel' cond body ch b ;;;
     skip_whitespace_and_comments fuel') s = Some r).
  { intros B cond body b s. unfold bind at 1 3. rewrite read_char_eq.
    unfold bind.
    destruct (while_read fuel cond body (hd_error (contents s)) b
                (after_read s)) as [[[c4 b4] s4]|] eqn:E4; [|discriminate].
    rewrite (while_read_mono _ _ fuel fuel' Hle' _ _ _ _ E4).
    apply IH; exact Hle'. }
  destruct (is_chr "/" (hd_error (contents st1))); [apply Comment; exact H|].
  destruct (is_chr "*" (hd_error (contents st1))); [apply Comment; exact H|].
  exact H.
Qed.

Lemma layout_skipped_fuel st s :
  layout_skipped st s ->
  skip_whitespace_and_comments (remaining st + 2) st = Some (tt, s).
Proof.
  intros [fuel E].
  destruct (skip_spec (remaining st + 2) st) as (s' & E' & _); [lia|].
  apply (skip_mono _ (Nat.max fuel (remaining st + 2))) in E; [|lia].
  apply (skip_mono _ (Nat.max fuel (remaining st + 2))) in E' as E''; [|lia].
  congruence.
Qed.

Lemma peeked_spec a l st :
  contents st = a :: l ->
  Ascii.eqb a NL = false ->
  contents (peeked (Some a) st) = a :: l /\
  g_line (peeked (Some a) st) = g_line st /\
  g_col (peeked (Some a) st) = g_col st.
Proof.
  intros H Hnl. change (peeked (Some a) st) with (peek1 a (peek1 a st)).
  destruct (peek1_spec a l st H Hnl) as (H1 & L1 & C1).
  destruct (peek1_spec a l _ H1 Hnl) as (H2 & L2 & C2).
  repeat split; congruence.
Qed.

(** After the layout, [next_token] hands the stream to the sub-scanner
    chosen by the first character. *)
Lemma next_token_after_layout st s a l :
  layout_skipped st s ->
  contents s = a :: l ->
  next_token st =
  (if isalpha (Some a) || is_chr "_" (Some a) then
     read_identifier_or_keyword (remaining st + 2)
   else if isdigit (Some a) then read_number (remaining st + 2)
   else if is_chr DQUOTE (Some a) then read_string (remaining st + 2)
   else if is_chr "'" (Some a) then read_char_literal
   else read_operator_or_separator) (peeked (Some a) s).
Proof.
  intros Hskip H. unfold next_token, next_token_fuel.
  unfold bind at 1. rewrite (layout_skipped_fuel _ _ Hskip).
  unfold bind at 1. rewrite read_char_eq, H. cbn [hd_error].
  unfold bind at 1. rewrite unread_char_eq.
  unfold bind at 1. rewrite read_char_eq.
  rewrite contents_after_unread. unfold ahead.
  rewrite contents_after_read, H. cbn [hd_error tl].
  unfold bind at 1. rewrite unread_char_eq. reflexivity.
Qed.

(** The skipper takes nothing from a stream whose first character is neither
    layout nor a slash. *)
Lemma layout_skipped_none st a l :
  contents st = a :: l ->
  isspace (Some a) = false ->
  Ascii.eqb a "/" = false ->
  layout_skipped st (peek1 a st).
Proof.
  intros H Hsp Hsl. exists 1. apply skip_no_layout with (l := l); assumption.
Qed.

(** What the skipper leaves is a suffix of what it found. *)
Lemma layout_skipped_suffix st s :
  layout_skipped st s -> exists k, contents st = k ++ contents s.
Proof.
  intros H. apply layout_skipped_fuel in H.
  destruct (skip_spec (remaining st + 2) st) as (s' & E' & S'); [lia|].
  rewrite H in E'. injection E' as <-. exact (skipped_suffix _ _ S').
Qed.



(** [read_operator_or_separator] on a stream that starts with [c1]. *)
Lemma read_operator_or_separator_eq st c1 l :
  contents st = c1 :: l ->
  read_operator_or_separator st =
  let start_line := g_line st in
  let start_col := (g_col st + 1)%Z in
  let c2 := hd_error l in
  if is_separator_char (Some c1) then
    Some (make_token TOK_SEPARATOR [c1] start_line start_col, after_read st)
  else if existsb (strcmp0 [c1; to_char c2]) two_ops then
    Some (make_token TOK_OPERATOR [c1; to_char c2] start_line start_col,
          after_read (after_read st))
  else
    Some (make_token (if strchr single_ops c1 then TOK_OPERATOR
                      else TOK_UNKNOWN) [c1] start_line start_col,
          after_unread c2 (after_read (after_read st))).
Proof.
  intros H. unfold read_operator_or_separator.
  unfold bind at 1, get_line. unfold bind at 1, get_col.
  unfold bind at 1. rewrite read_char_eq, H. cbn [hd_error to_char].
  cbv zeta. destruct (is_separator_char (Some c1)); [reflexivity|].
  unfold bind at 1. rewrite read_char_eq, contents_after_read, H.
  cbn [tl].
  destruct (existsb (strcmp0 [c1; to_char (hd_error l)]) two_ops);
    [reflexivity|].
  unfold bind at 1. rewrite unread_char_eq.
  destruct (strchr single_ops c1); reflexivity.
Qed.

Lemma contents_after_operator st c1 l :
  contents st = c1 :: l ->
  contents (after_read st) = l /\
  contents (after_read (after_read st)) = tl l /\
  contents (after_unread (hd_error l) (after_read (after_read st))) = l.
Proof.
  intros H.
  assert (H1 : contents (after_read st) = l)
    by (rewrite contents_after_read, H; reflexivity).
  repeat split; auto.
  - rewrite contents_after_read, H1. reflexivity.
  - rewrite contents_after_unread. rewrite <- H1 at 1.
    rewrite ahead_after_read. exact H1.
Qed.


Lemma remaining_start input : remaining (start input) = List.length input.
Proof. reflexivity. Qed.

(** The character literal scanner on a stream that starts with two single
    quotes: the second quote is the content, and the character after it has
    to close the literal. *)
Lemma read_char_literal_two_quotes st r :
  contents st = "'"%char :: "'"%char :: r ->
  read_char_literal st =
  Some (make_token
          (if is_chr "'" (hd_error r) then TOK_CHAR else TOK_ERROR)
          (if is_chr "'" (hd_error r) then ["'"%char] else invalid_char)
          (g_line st) (g_col st + 1),
        after_read (after_read (after_read st))).
Proof.
  intros H. unfold read_char_literal.
  unfold bind at 1, get_line. unfold bind at 1, get_col.
  unfold bind at 1. rewrite read_char_eq.
  unfold bind at 1. rewrite read_char_eq, contents_after_read, H.
  cbn [tl hd_error].
  change (Ascii.eqb "'"%char NL) with false.
  change (Ascii.eqb "'"%char "\"%char) with false. cbv iota.
  unfold bind at 1, ret at 1. unfold bind at 1.
  rewrite read_char_eq, !contents_after_read, H. cbn [tl].
  destruct (is_chr "'" (hd_error r)); reflexivity.
Qed.

(** The operator scanner behind [next_token]: when, after the layout, the
    stream starts with a character [c1] that starts no identifier, number,
    string or character literal, the token is decided by [c1] and the
    character after it.  A separator is taken alone; otherwise a pair from
    [two_ops] is taken whole; otherwise [c1] is taken alone, as an operator if
    [strchr] finds it in [single_ops] and as unknown if not, and the next
    character stays in the stream. *)
Lemma operator_or_separator_scanned (st s : State) (c1 : ascii)
    (l : list ascii) :
  layout_skipped st s ->
  contents s = c1 :: l ->
  isspace (Some c1) = false ->
  isalpha (Some c1) || is_chr "_" (Some c1) = false ->
  isdigit (Some c1) = false ->
  is_chr DQUOTE (Some c1) = false ->
  is_chr "'" (Some c1) = false ->
  exists t st',
    next_token st = Some (t, st') /\
    line t = g_line s /\ col t = (g_col s + 1)%Z /\
    if is_separator_char (Some c1) then
      type t = TOK_SEPARATOR /\ lexeme t = cstr [c1] /\ contents st' = l
    else if existsb (strcmp0 [c1; to_char (hd_error l)]) two_ops then
      type t = TOK_OPERATOR /\ lexeme t = cstr [c1; to_char (hd_error l)] /\
      contents st' = tl l
    else
      type t = (if strchr single_ops c1 then TOK_OPERATOR else TOK_UNKNOWN) /\
      lexeme t = cstr [c1] /\ contents st' = l.
Proof.
  intros Hskip H Hsp Hid Hdig Hdq Hsq.
  rewrite (next_token_after_layout _ _ _ _ Hskip H), Hid, Hdig, Hdq, Hsq.
  destruct (peeked_spec c1 l s H (isspace_NL _ Hsp)) as (Hr & Hl & Hc).
  rewrite (read_operator_or_separator_eq _ _ _ Hr), Hl, Hc. cbv zeta.
  destruct (contents_after_operator _ _ _ Hr) as (K1 & K2 & K3).
  assert (Hlex1 : firstn (MAX_LEXEME_LEN - 1) (cstr [c1]) = cstr [c1]).
  { simpl. destruct (Ascii.eqb c1 NUL); reflexivity. }
  assert (Hlex2 : forall c2, firstn (MAX_LEXEME_LEN - 1) (cstr [c1; c2])
                             = cstr [c1; c2]).
  { intros c2. simpl.
    destruct (Ascii.eqb c1 NUL); [|destruct (Ascii.eqb c2 NUL)]; reflexivity. }
  destruct (is_separator_char (Some c1)).
  { eexists _, _; split; [reflexivity|]. repeat split; auto. }
  destruct (existsb (strcmp0 [c1; to_char (hd_error l)]) two_ops).
  { eexists _, _; split; [reflexivity|]. repeat split; auto.
    apply Hlex2. }
  eexists _, _; split; [reflexivity|]. repeat split; auto.
Qed.

(** [strchr] accepts the characters of [single_ops] and, besides them, the
    NUL character. *)
Lemma strchr_single_ops (c : ascii) :
  strchr single_ops c = existsb (Ascii.eqb c) single_ops || Ascii.eqb c NUL.
Proof.
  destruct c as [[] [] [] [] [] [] [] []]; vm_compute; reflexivity.
Qed.

(* ================================================================= *)
(** ** Identifiers *)

Lemma push_firstn n x l : push n x (firstn n l) = firstn n (l ++ [x]).
Proof.
  unfold push. rewrite length_firstn.
  destruct (Nat.ltb_spec (Nat.min n (List.length l)) n) as [Hlt|Hge].
  - rewrite firstn_all2 by lia.
    rewrite firstn_all2 by (rewrite length_app; simpl; lia). reflexivity.
  - rewrite firstn_app.
    replace (n - List.length l) with 0 by lia.
    simpl. rewrite app_nil_r. reflexivity.
Qed.

Lemma cstr_no_nul s :
  forallb (fun a => negb (Ascii.eqb a NUL)) s = true -> cstr s = s.
Proof.
  induction s as [|a s IH]; simpl; auto.
  intros H; apply andb_true_iff in H as [Ha Hs].
  destruct (Ascii.eqb a NUL); [discriminate|]. rewrite IH; auto.
Qed.

Lemma idchar_not_nul a : idchar a = true -> negb (Ascii.eqb a NUL) = true.
Proof.
  destruct a as [[] [] [] [] [] [] [] []]; vm_compute; auto.
Qed.

Lemma idchars_no_nul s :
  forallb idchar s = true ->
  forallb (fun a => negb (Ascii.eqb a NUL)) s = true.
Proof.
  induction s as [|a s IH]; simpl; auto.
  intros H; apply andb_true_iff in H as [Ha Hs].
  rewrite (idchar_not_nul _ Ha), IH; auto.
Qed.

Lemma forallb_firstn {A} (p : A -> bool) n l :
  forallb p l = true -> forallb p (firstn n l) = true.
Proof.
  revert n; induction l as [|a l IH]; intros [|n]; simpl; auto.
  intros H; apply andb_true_iff in H as [-> Hl]. simpl. auto.
Qed.

Lemma chars_eqb_length s t :
  chars_eqb s t = true -> List.length s = List.length t.
Proof.
  revert t; induction s as [|a s IH]; intros [|b t]; simpl;
    try discriminate; auto.
  intros H; apply andb_true_iff in H as [_ H]. f_equal; auto.
Qed.

(** No keyword is longer than eight characters. *)
Lemma is_keyword_length s :
  is_keyword s = true -> List.length (cstr s) <= 8.
Proof.
  unfold is_keyword. intros H. apply existsb_exists in H as (k & Hin & Hk).
  apply chars_eqb_length in Hk. rewrite Hk.
  assert (Hall : forallb (fun k => List.length (cstr k) <=? 8)%nat KEYWORDS
                 = true) by reflexivity.
  rewrite forallb_forall in Hall. apply Nat.leb_le. auto.
Qed.

(** An identifier starts with a character that is neither layout nor a
    slash. *)
Lemma ident_start_no_layout a :
  isalpha (Some a) || is_chr "_" (Some a) = true ->
  isspace (Some a) = false /\ Ascii.eqb a "/" = false /\ idchar a = true.
Proof.
  destruct a as [[] [] [] [] [] [] [] []]; vm_compute; auto;
    intros; discriminate.
Qed.

(** The loop of [read_identifier_or_keyword] on a maximal run: the whole run
    is read, the buffer keeps its first 255 characters, and the character in
    hand is the one after the run. *)
Lemma ident_loop_run (fuel : nat) (run tail : list ascii) :
  forallb idchar run = true ->
  maximal_run idchar tail ->
  forall a st,
    a :: contents st = run ++ tail ->
    List.length (run ++ tail) <= fuel ->
    exists c' st',
      while_read fuel ident_cond (store (MAX_LEXEME_LEN - 1)) (Some a) [] st =
        Some ((c', firstn (MAX_LEXEME_LEN - 1) run), st') /\
      ahead c' st' = tail.
Proof.
  intros Hrun Hmax a st Hst Hf.
  destruct (while_read_spec ident_cond (store (MAX_LEXEME_LEN - 1))
              ident_cond_eof fuel (Some a) [] st)
    as (c' & buf & st' & E & _ & Hc').
  { unfold ahead. rewrite Hst; exact Hf. }
  pose (P := fun (c : cint) (buf : list ascii) (s : State) =>
               (c = None -> contents s = []) /\
               exists done todo,
                 run = done ++ todo /\ ahead c s = todo ++ tail /\
                 buf = firstn (MAX_LEXEME_LEN - 1) done).
  assert (HP : P c' buf st').
  { eapply (while_read_invariant ident_cond (store (MAX_LEXEME_LEN - 1))
              ident_cond_eof P fuel); [| |exact E].
    - intros x b s (_ & done & todo & Hsplit & Hah & Hb) Hcond. split.
      { intros Hnone. rewrite contents_after_read.
        destruct (contents s); [reflexivity|discriminate]. }
      destruct todo as [|y todo].
      + simpl in Hah. destruct tail as [|y tail']; [discriminate|].
        injection Hah as <- _. simpl in Hmax. unfold idchar in Hmax.
        unfold ident_cond in *. congruence.
      + simpl in Hah. injection Hah as <- Hah.
        exists (done ++ [x]), todo. split; [|split].
        * rewrite <- app_assoc. exact Hsplit.
        * rewrite ahead_after_read. exact Hah.
        * subst b. unfold store, to_char. apply push_firstn.
    - split; [discriminate|]. exists [], run. auto. }
  destruct HP as (Hnone & done & todo & Hsplit & Hah & Hb).
  destruct todo as [|y todo].
  - rewrite app_nil_r in Hsplit. subst done buf.
    exists c', st'. split; [exact E|exact Hah].
  - exfalso. destruct c' as [z|].
    + simpl in Hah. injection Hah as <- _.
      assert (Hy : idchar z = true).
      { rewrite Hsplit, forallb_app in Hrun.
        apply andb_true_iff in Hrun as [_ Hrun]. simpl in Hrun.
        apply andb_true_iff in Hrun as [Hy _]. exact Hy. }
      unfold idchar, ident_cond in *. congruence.
    + simpl in Hah. rewrite (Hnone eq_refl) in Hah. discriminate.
Qed.

Lemma is_keyword_firstn run :
  forallb idchar run = true ->
  is_keyword (firstn (MAX_LEXEME_LEN - 1) run) = is_keyword run.
Proof.
  intros Hrun.
  destruct (Nat.le_gt_cases (List.length run) (MAX_LEXEME_LEN - 1)) as [Hle|Hgt].
  - rewrite firstn_all2; auto.
  - assert (H1 : is_keyword (firstn (MAX_LEXEME_LEN - 1) run) = false).
    { destruct (is_keyword _) eqn:E; auto.
      apply is_keyword_length in E.
      rewrite cstr_no_nul in E
        by (apply idchars_no_nul, forallb_firstn; exact Hrun).
      rewrite length_firstn in E. unfold MAX_LEXEME_LEN in *. lia. }
    assert (H2 : is_keyword run = false).
    { destruct (is_keyword run) eqn:E; auto.
      apply is_keyword_length in E.
      rewrite cstr_no_nul in E by (apply idchars_no_nul; exact Hrun).
      unfold MAX_LEXEME_LEN in *. lia. }
    congruence.
Qed.

(** [read_identifier_or_keyword] on a maximal run of identifier
    characters. *)
Lemma read_identifier_or_keyword_run (fuel : nat) st a run' tail :
  contents st = (a :: run') ++ tail ->
  forallb idchar (a :: run') = true ->
  maximal_run idchar tail ->
  remaining st <= fuel ->
  exists t st',
    read_identifier_or_keyword fuel st = Some (t, st') /\
    contents st' = tail /\
    line t = g_line st /\ col t = (g_col st + 1)%Z /\
    type t = (if is_keyword (a :: run') then TOK_KEYWORD else TOK_IDENTIFIER) /\
    lexeme t = (if is_keyword (a :: run') then a :: run'
                else firstn MAX_ID_LEN (a :: run')).
Proof.
  intros Hst Hrun Hmax Hf. set (run := a :: run') in *.
  unfold read_identifier_or_keyword.
  unfold bind at 1, get_line. unfold bind at 1, get_col.
  unfold bind at 1. rewrite read_char_eq, Hst. cbn [run app hd_error].
  fold run.
  destruct (ident_loop_run fuel run tail Hrun Hmax a (after_read st))
    as (c' & st3 & E & Hah).
  { rewrite contents_after_read, Hst. reflexivity. }
  { unfold remaining in Hf. rewrite Hst in Hf. exact Hf. }
  unfold bind at 1. rewrite E.
  unfold bind at 1. rewrite unread_char_eq.
  set (buf := firstn (MAX_LEXEME_LEN - 1) run).
  assert (Hnul : forallb (fun a => negb (Ascii.eqb a NUL)) run = true)
    by (apply idchars_no_nul; exact Hrun).
  assert (Hbuf : cstr buf = buf)
    by (apply cstr_no_nul, forallb_firstn; exact Hnul).
  assert (Hkw : is_keyword buf = is_keyword run)
    by (apply is_keyword_firstn; exact Hrun).
  assert (Hcont : contents (after_unread c' st3) = tail)
    by (rewrite contents_after_unread; exact Hah).
  rewrite Hkw, Hbuf.
  destruct (is_keyword run) eqn:K; cbn [negb andb].
  - eexists _, _; split; [reflexivity|]. repeat split; auto.
    unfold make_token; cbn [lexeme]. rewrite Hbuf.
    apply is_keyword_length in K. rewrite cstr_no_nul in K by exact Hnul.
    unfold buf. rewrite firstn_firstn.
    apply firstn_all2. unfold MAX_LEXEME_LEN. lia.
  - destruct (Nat.ltb_spec MAX_ID_LEN (List.length buf)) as [Hlong|Hshort].
    + eexists _, _; split; [reflexivity|]. repeat split; auto.
      unfold make_token; cbn [lexeme]. unfold buf.
      rewrite firstn_firstn.
      replace (Nat.min MAX_ID_LEN (MAX_LEXEME_LEN - 1)) with MAX_ID_LEN
        by reflexivity.
      rewrite cstr_no_nul by (apply forallb_firstn; exact Hnul).
      rewrite firstn_firstn. reflexivity.
    + eexists _, _; split; [reflexivity|]. repeat split; auto.
      unfold make_token; cbn [lexeme]. rewrite Hbuf.
      unfold buf in *. rewrite length_firstn in Hshort.
      rewrite firstn_firstn.
      rewrite (firstn_all2 (n := MAX_ID_LEN))
        by (unfold MAX_ID_LEN, MAX_LEXEME_LEN in *; lia).
      apply firstn_all2. unfold MAX_ID_LEN, MAX_LEXEME_LEN in *. lia.
Qed.

(* ================================================================= *)
(** ** String literals *)


Lemma length_lexeme_make_token ty lex l c :
  List.length (lexeme (make_token ty lex l c)) <= MAX_LEXEME_LEN - 1.
Proof. unfold make_token; cbn [lexeme]. rewrite length_firstn. lia. Qed.



(* ================================================================= *)
(** ** Independence of the buffering *)

Lemma same_view_refl st : same_view st st.
Proof. repeat split. Qed.

Lemma same_view_remaining s1 s2 :
  same_view s1 s2 -> remaining s1 = remaining s2.
Proof. intros (H & _). unfold remaining. rewrite H. reflexivity. Qed.

Lemma respects_ret {A} (a : A) : respects (ret a).
Proof. intros s1 s2 H. simpl. auto. Qed.

Lemma respects_out_of_fuel {A} : respects (@out_of_fuel A).
Proof. intros s1 s2 H. exact I. Qed.

Lemma respects_bind {A B} (m : Lex A) (k : A -> Lex B) :
  respects m -> (forall a, respects (k a)) -> respects (bind m k).
Proof.
  intros Hm Hk s1 s2 H. unfold bind. specialize (Hm s1 s2 H).
  destruct (m s1) as [[a1 t1]|], (m s2) as [[a2 t2]|]; try contradiction;
    auto.
  destruct Hm as [<- Ht]. apply Hk. exact Ht.
Qed.

Lemma respects_get_line : respects get_line.
Proof. intros s1 s2 H. simpl. split; [apply H|exact H]. Qed.

Lemma respects_get_col : respects get_col.
Proof. intros s1 s2 H. simpl. split; [apply H|exact H]. Qed.

Lemma respects_read_char : respects read_char.
Proof.
  intros s1 s2 (Hc & Hl & Hk). rewrite !read_char_eq, Hc. split; auto.
  destruct (contents s2) as [|a l] eqn:E2.
  - rewrite (after_read_eof s1), (after_read_eof s2) by assumption.
    repeat split; congruence.
  - repeat split.
    + rewrite !contents_after_read, Hc, E2. reflexivity.
    + rewrite (g_line_after_read _ _ _ Hc), (g_line_after_read _ _ _ E2), Hl.
      reflexivity.
    + rewrite (g_col_after_read _ _ _ Hc), (g_col_after_read _ _ _ E2), Hk.
      reflexivity.
Qed.

Lemma respects_unread_char c : respects (unread_char c).
Proof.
  intros s1 s2 (Hc & Hl & Hk). rewrite !unread_char_eq. split; auto.
  repeat split.
  - rewrite !contents_after_unread. unfold ahead. rewrite Hc. reflexivity.
  - rewrite !g_line_after_unread. exact Hl.
  - rewrite !g_col_after_unread, Hk. reflexivity.
Qed.

Lemma respects_while_read {A} (cond : cint -> A -> bool) body (fuel : nat) :
  forall c a, respects (while_read fuel cond body c a).
Proof.
  induction fuel as [|fuel IH]; intros c a; simpl; destruct (cond c a);
    auto using respects_ret, respects_out_of_fuel.
  apply respects_bind; [apply respects_read_char|]. intros c'. apply IH.
Qed.

(** Breaks a scanner into its steps; what is left are the calls of the
    recursive scanners. *)
Ltac respects_steps :=
  repeat first
    [ apply respects_ret
    | apply respects_out_of_fuel
    | apply respects_read_char
    | apply respects_unread_char
    | apply respects_get_line
    | apply respects_get_col
    | apply respects_while_read
    | apply respects_bind; [|intros ?]
    | match goal with
      | |- respects (if ?b then _ else _) => destruct b
      | |- respects (match ?c with Some _ => _ | None => _ end) => destruct c
      | |- respects (let (_, _) := ?r in _) => destruct r
      end ].

Lemma respects_skip (fuel : nat) :
  respects (skip_whitespace_and_comments fuel).
Proof.
  induction fuel as [|fuel IH]; simpl; respects_steps; exact IH.
Qed.

Lemma respects_read_string_loop (fuel : nat) (sl sc : Z) :
  forall c buf, respects (read_string_loop fuel c buf sl sc).
Proof.
  induction fuel as [|fuel IH]; intros c buf; simpl; respects_steps;
    apply IH.
Qed.

Lemma respects_next_token_fuel (fuel : nat) : respects (next_token_fuel fuel).
Proof.
  unfold next_token_fuel, read_identifier_or_keyword, read_number,
    read_string, read_char_literal, read_operator_or_separator.
  respects_steps;
    first [apply respects_skip | apply respects_read_string_loop].
Qed.

Lemma respects_next_token : respects next_token.
Proof.
  intros s1 s2 H. unfold next_token.
  rewrite (same_view_remaining _ _ H).
  apply respects_next_token_fuel. exact H.
Qed.

Lemma run_respects {A} (m : Lex A) s1 s2 :
  respects m -> same_view s1 s2 -> run m s1 = run m s2.
Proof.
  intros Hm Hv. unfold run. specialize (Hm s1 s2 Hv).
  destruct (m s1) as [[a1 t1]|], (m s2) as [[a2 t2]|]; try contradiction;
    auto.
  destruct Hm as [<- _]. reflexivity.
Qed.

Lemma respects_main_loop (fuel : nat) : respects (main_loop fuel).
Proof.
  induction fuel as [|fuel IH]; simpl; [apply respects_out_of_fuel|].
  apply respects_bind; [apply respects_next_token|]. intros t.
  destruct (type t); respects_steps; exact IH.
Qed.

(* ================================================================= *)
(** ** Properties of the scanner *)

(** C1.  The line reported for a token is not always the line its first
    character is on.  In the input made of [a], a newline and [b], the
    newline that ends the identifier [a] is pushed back by
    [read_identifier_or_keyword] and counted again when the skipper re-reads
    it ([unread_char] does not take the line increment back): [b], the first
    character of line 2, is reported at line 3, column 1. *)
Theorem position_after_newline_ended_run :
  tokens (str "a" ++ [NL] ++ str "b") =
  Some [mkToken TOK_IDENTIFIER (str "a") 1 1;
        mkToken TOK_IDENTIFIER (str "b") 3 1;
        mkToken TOK_EOF (str "EOF") 3 1].
Proof. vm_compute. reflexivity. Qed.

(** C2, as stated, fails: on the input [/x] the skipper reads the slash and
    [x], finds no comment and pushes both back, so two characters are pending
    at once. *)
Lemma two_characters_pending :
  exists st',
    skip_whitespace_and_comments 4 (start (str "/x")) = Some (tt, st') /\
    pending (fp st') = str "/x" /\
    ~ high st' <= 1.
Proof.
  eexists; split; [vm_compute; reflexivity|].
  split; [reflexivity|]. vm_compute. lia.
Qed.

(** C2, amended.  At every point of a scan at most two characters are pending
    in the pushback stack, and between two calls of [next_token] at most
    one. *)
Theorem pushback_depth_bounded (input : list ascii) (n : nat) :
  exists ts st',
    calls n (start input) = Some (ts, st') /\
    List.length ts = n /\
    high st' <= 2 /\
    depth st' <= 1.
Proof.
  destruct (calls_spec n (start input)) as (ts & st' & E & Hlen & Hd & Hh).
  { unfold depth; simpl; lia. }
  exists ts, st'; repeat split; auto.
Qed.

(** C5.  Every call of [next_token] returns, in whatever state the scanner
    is; and the scan of an input calls it at most once more than the input
    has characters before [TOK_EOF] is returned: the token sequence is finite
    and [TOK_EOF] is its last and only its last token. *)
Theorem scanning_terminates (input : list ascii) (st : State) :
  (exists t st', next_token st = Some (t, st')) /\
  (exists tcs,
      scan input = Some tcs /\
      tokens input = Some (map fst tcs) /\
      List.length tcs <= S (List.length input) /\
      ends_with_eof (map fst tcs)).
Proof.
  split.
  - destruct (next_token_spec st) as (t & st' & E & _). eauto.
  - destruct (scan_loop_spec (S (List.length input)) (start input))
      as (tcs & st' & E & _ & Hlen & Hend).
    { rewrite remaining_start; lia. }
    exists tcs. unfold tokens, scan, run. rewrite E.
    repeat split; auto.
Qed.




(** C7.  The operator scanner does not classify every character outside the
    single-character operator set as unknown: for the NUL character
    [strchr] finds the terminator of the operator string, and the token is an
    operator with an empty text.  The two examples of the claim hold. *)
Theorem nul_is_scanned_as_operator :
  strchr single_ops NUL = true /\
  existsb (Ascii.eqb NUL) single_ops = false /\
  tokens [NUL] =
    Some [mkToken TOK_OPERATOR [] 1 1; mkToken TOK_EOF (str "EOF") 1 1] /\
  tokens (str "<=x") =
    Some [mkToken TOK_OPERATOR (str "<=") 1 1;
          mkToken TOK_IDENTIFIER (str "x") 1 3;
          mkToken TOK_EOF (str "EOF") 1 3] /\
  tokens (str "<x") =
    Some [mkToken TOK_OPERATOR (str "<") 1 1;
          mkToken TOK_IDENTIFIER (str "x") 1 2;
          mkToken TOK_EOF (str "EOF") 1 2].
Proof. repeat split; vm_compute; reflexivity. Qed.

(** C8.  When, after the layout, the stream starts with a maximal run of
    letters, digits and underscores whose first character is a letter or an
    underscore, [next_token] consumes the whole run and nothing after it.  A
    keyword is returned with its text; any other run is returned as an
    identifier whose text is the first 64 characters of the run, that is the
    run itself when it has at most 64 characters and exactly 64 characters
    when it is longer. *)
Theorem identifier_is_truncated_to_64 (st s : State) (a : ascii)
    (run' tail : list ascii) :
  layout_skipped st s ->
  contents s = (a :: run') ++ tail ->
  isalpha (Some a) || is_chr "_" (Some a) = true ->
  forallb idchar run' = true ->
  maximal_run idchar tail ->
  exists t st',
    next_token st = Some (t, st') /\
    contents st' = tail /\
    type t = (if is_keyword (a :: run') then TOK_KEYWORD else TOK_IDENTIFIER) /\
    lexeme t = (if is_keyword (a :: run') then a :: run'
                else firstn 64 (a :: run')) /\
    (List.length (a :: run') <= 64 -> lexeme t = a :: run') /\
    (64 < List.length (a :: run') ->
     type t = TOK_IDENTIFIER /\ List.length (lexeme t) = 64).
Proof.
  intros Hskip Hst Hfirst Hrun Hmax.
  destruct (ident_start_no_layout _ Hfirst) as (Hsp & Hsl & Hid).
  rewrite (next_token_after_layout _ _ _ _ Hskip Hst), Hfirst.
  destruct (peeked_spec a (run' ++ tail) s Hst (isspace_NL _ Hsp))
    as (Hr & Hl & Hc).
  assert (Hall : forallb idchar (a :: run') = true)
    by (simpl; rewrite Hid, Hrun; reflexivity).
  destruct (read_identifier_or_keyword_run (remaining st + 2)
              (peeked (Some a) s) a run' tail Hr Hall Hmax)
    as (t & st' & E & Hcont & _ & _ & Hty & Hlex).
  { destruct (layout_skipped_suffix _ _ Hskip) as [k Hk].
    unfold remaining. rewrite Hr, Hk, Hst, length_app. simpl. lia. }
  exists t, st'. split; [exact E|]. split; [exact Hcont|].
  split; [exact Hty|]. split; [exact Hlex|].
  assert (Hnul : forallb (fun a => negb (Ascii.eqb a NUL)) (a :: run') = true)
    by (apply idchars_no_nul; exact Hall).
  split.
  - intros Hshort. rewrite Hlex.
    destruct (is_keyword (a :: run')); [reflexivity|].
    apply firstn_all2. exact Hshort.
  - intros Hlong.
    destruct (is_keyword (a :: run')) eqn:K.
    + apply is_keyword_length in K. rewrite cstr_no_nul in K by exact Hnul.
      lia.
    + split; [exact Hty|]. rewrite Hlex, length_firstn.
      unfold MAX_ID_LEN. lia.
Qed.

Lemma identifier_is_truncated_to_64_witness :
  exists t st',
    next_token (start (str "/**/ " ++ repeat "x"%char 100 ++ str "+1")) =
      Some (t, st') /\
    contents st' = str "+1" /\
    type t = TOK_IDENTIFIER /\
    lexeme t = repeat "x"%char 64 /\
    (100 <= 64 -> lexeme t = repeat "x"%char 100) /\
    (64 < 100 -> type t = TOK_IDENTIFIER /\ List.length (lexeme t) = 64).
Proof.
  refine (identifier_is_truncated_to_64
            (start (str "/**/ " ++ repeat "x"%char 100 ++ str "+1"))
            (mkState 1 5 (mkFILE ["x"%char]
                            (repeat "x"%char 99 ++ str "+1") 1))
            "x"%char (repeat "x"%char 99) (str "+1") _ _ _ _ _).
  - exists 108. vm_compute. reflexivity.
  - reflexivity.
  - reflexivity.
  - reflexivity.
  - reflexivity.
Defined.

(** C9.  Once [next_token] has returned [TOK_EOF], every later call returns
    [TOK_EOF] as well and leaves the scanner as it is. *)
Theorem eof_is_absorbing (st st' : State) (t : Token) (n : nat) :
  next_token st = Some (t, st') ->
  type t = TOK_EOF ->
  exists ts,
    calls n st' = Some (ts, st') /\
    List.length ts = n /\
    Forall (fun t' => type t' = TOK_EOF) ts.
Proof.
  intros E Ht. apply calls_after_eof.
  destruct (next_token_spec st) as (t0 & st0 & E0 & L).
  rewrite E in E0; injection E0 as <- <-.
  exact (lexed_eof _ _ _ L Ht).
Qed.

Lemma eof_is_absorbing_witness :
  exists ts,
    calls 3 (mkState 2 0 (mkFILE [] [] 0)) =
      Some (ts, mkState 2 0 (mkFILE [] [] 0)) /\
    List.length ts = 3 /\
    Forall (fun t' => type t' = TOK_EOF) ts.
Proof.
  apply (eof_is_absorbing (start (str " " ++ [NL]))
           (mkState 2 0 (mkFILE [] [] 0)) (mkToken TOK_EOF (str "EOF") 2 0) 3).
  - vm_compute.
    reflexivity.
  - reflexivity.
Defined.

(** C10.  When, after the layout, the stream starts with two single quotes,
    the token is never an empty character literal: the second quote is taken
    as the content of the literal, so the token is the literal consisting of
    a single quote when a third quote follows, and an error otherwise, the
    character after the second quote being consumed in both cases.  In
    particular three single quotes give [TOK_CHAR] with a text of one single
    quote, and two single quotes followed by end of input give
    [TOK_ERROR]. *)
Theorem empty_char_literal_is_not_empty (st s : State) (r : list ascii) :
  layout_skipped st s ->
  contents s = "'"%char :: "'"%char :: r ->
  (exists t st',
      next_token st = Some (t, st') /\
      contents st' = tl r /\
      line t = g_line s /\ col t = (g_col s + 1)%Z /\
      match r with
      | "'"%char :: _ => type t = TOK_CHAR /\ lexeme t = ["'"%char]
      | _ => type t = TOK_ERROR /\ lexeme t = invalid_char
      end) /\
  tokens (str "'''") =
    Some [mkToken TOK_CHAR ["'"%char] 1 1; mkToken TOK_EOF (str "EOF") 1 3] /\
  tokens (str "''") =
    Some [mkToken TOK_ERROR invalid_char 1 1; mkToken TOK_EOF (str "EOF") 1 2].
Proof.
  intros Hskip H. split; [|split; vm_compute; reflexivity].
  replace (next_token st) with (read_char_literal (peeked (Some "'"%char) s))
    by (rewrite (next_token_after_layout _ _ _ _ Hskip H); reflexivity).
  destruct (peeked_spec "'" _ s H eq_refl) as (Hr & Hl & Hc).
  rewrite (read_char_literal_two_quotes _ _ Hr), Hl, Hc.
  eexists _, _; split; [reflexivity|].
  split; [rewrite !contents_after_read, Hr; reflexivity|].
  split; [reflexivity|]. split; [reflexivity|].
  destruct r as [|c r']; [split; reflexivity|].
  cbn [hd_error is_chr].
  destruct (Ascii.eqb c "'") eqn:Hq.
  - apply Ascii.eqb_eq in Hq; subst c. split; reflexivity.
  - assert (Hne : c <> "'"%char) by (apply Ascii.eqb_neq; exact Hq).
    destruct c as [[] [] [] [] [] [] [] []];
      first [split; reflexivity | contradiction Hne; reflexivity].
Qed.

Lemma empty_char_literal_is_not_empty_witness :
  exists t st',
    next_token (start (str " '''x")) = Some (t, st') /\
    contents st' = str "x" /\
    line t = 1%Z /\ col t = 2%Z /\
    type t = TOK_CHAR /\ lexeme t = ["'"%char].
Proof.
  refine (proj1 (empty_char_literal_is_not_empty
                   (start (str " '''x"))
                   (mkState 1 1 (mkFILE ["'"%char] (str "''x") 1))
                   (str "'x") _ _)).
  - exists 7. vm_compute. reflexivity.
  - reflexivity.
Defined.

(* ================================================================= *)
(** ** What the scanners return *)

Lemma returns_ret {A} (P : A -> Prop) (a : A) : P a -> returns P (ret a).
Proof. intros H st b st' [= <- _]. exact H. Qed.

Lemma returns_out_of_fuel {A} (P : A -> Prop) : returns P out_of_fuel.
Proof. intros st a st'; discriminate. Qed.

Lemma returns_bind {A B} (P : B -> Prop) (m : Lex A) (k : A -> Lex B) :
  (forall a, returns P (k a)) -> returns P (bind m k).
Proof.
  intros Hk st b st'. unfold bind.
  destruct (m st) as [[a st1]|]; [|discriminate]. apply Hk.
Qed.

Ltac returns_steps :=
  repeat first
    [ apply returns_out_of_fuel
    | apply returns_ret
    | apply returns_bind; intros ?
    | match goal with
      | |- returns _ (if ?b then _ else _) => destruct b
      | |- returns _ (match ?c with Some _ => _ | None => _ end) => destruct c
      | |- returns _ (let (_, _) := ?r in _) => destruct r
      end ].

Lemma returns_read_string_loop (P : Token -> Prop) (sl sc : Z) :
  (forall lex, P (make_token TOK_STRING lex sl sc)) ->
  P (make_token TOK_ERROR unterminated_string sl sc) ->
  forall fuel c buf, returns P (read_string_loop fuel c buf sl sc).
Proof.
  intros Hs He. induction fuel as [|fuel IH]; intros c buf; simpl;
    returns_steps; auto.
Qed.

Lemma cstr_has_no_nul s :
  forallb (fun a => negb (Ascii.eqb a NUL)) (cstr s) = true.
Proof.
  induction s as [|a s IH]; simpl; auto.
  destruct (Ascii.eqb a NUL) eqn:E; simpl; auto. rewrite E, IH. reflexivity.
Qed.

Lemma c_text_make_token ty lex l c : c_text (lexeme (make_token ty lex l c)).
Proof.
  split; [apply length_lexeme_make_token|].
  unfold make_token; cbn [lexeme]. apply forallb_firstn, cstr_has_no_nul.
Qed.

Lemma made_at_intro (ok : TokenType -> Prop) ty lex l c :
  ok ty -> made_at ok l c (make_token ty lex l c).
Proof. intros H; exists ty, lex; auto. Qed.

Ltac returns_made :=
  returns_steps; apply made_at_intro; auto.

Lemma returns_elim {A} (P : A -> Prop) (m : Lex A) st a st' :
  returns P m -> m st = Some (a, st') -> P a.
Proof. intros H; apply H. Qed.

(** Enters a sub-scanner: the start position is read off the counters, the
    rest is followed step by step. *)
Ltac enter_scanner :=
  unfold bind at 1, get_line; unfold bind at 1, get_col; cbv beta iota;
  apply returns_elim.

Lemma read_identifier_or_keyword_made (fuel : nat) st t st' :
  read_identifier_or_keyword fuel st = Some (t, st') ->
  made_at (fun ty => ty = TOK_KEYWORD \/ ty = TOK_IDENTIFIER)
    (g_line st) (g_col st + 1) t.
Proof. unfold read_identifier_or_keyword. enter_scanner. returns_made. Qed.

Lemma read_number_made (fuel : nat) st t st' :
  read_number fuel st = Some (t, st') ->
  made_at (fun ty => ty = TOK_INT \/ ty = TOK_FLOAT)
    (g_line st) (g_col st + 1) t.
Proof. unfold read_number. enter_scanner. returns_made. Qed.

Lemma read_string_made (fuel : nat) st t st' :
  read_string fuel st = Some (t, st') ->
  made_at (fun ty => ty = TOK_STRING \/ ty = TOK_ERROR)
    (g_line st) (g_col st + 1) t.
Proof.
  unfold read_string. enter_scanner. returns_steps.
  apply returns_read_string_loop; intros; apply made_at_intro; auto.
Qed.

Lemma read_char_literal_made st t st' :
  read_char_literal st = Some (t, st') ->
  made_at (fun ty => ty = TOK_CHAR \/ ty = TOK_ERROR)
    (g_line st) (g_col st + 1) t.
Proof. unfold read_char_literal. enter_scanner. returns_made. Qed.

Lemma read_operator_or_separator_made st t st' :
  read_operator_or_separator st = Some (t, st') ->
  made_at (fun ty => ty = TOK_SEPARATOR \/ ty = TOK_OPERATOR \/
                     ty = TOK_UNKNOWN)
    (g_line st) (g_col st + 1) t.
Proof. unfold read_operator_or_separator. enter_scanner. returns_made. Qed.

(** A loop that has ended has found its condition false, and it holds no
    character only at the end of the input. *)
Lemma while_read_exit {A} (cond : cint -> A -> bool) body (fuel : nat) :
  forall c a st c' a' st',
    (c = None -> contents st = []) ->
    while_read fuel cond body c a st = Some ((c', a'), st') ->
    cond c' a' = false /\ (c' = None -> contents st' = []).
Proof.
  induction fuel as [|fuel IH]; intros c a st c' a' st' Hn; simpl;
    destruct (cond c a) eqn:Hc; try discriminate;
    try (intros [= <- <- <-]; auto).
  unfold bind. rewrite read_char_eq. apply IH.
  rewrite contents_after_read. intros H.
  destruct (contents st); [reflexivity|discriminate].
Qed.

Lemma after_read_none st :
  hd_error (contents st) = None -> contents (after_read st) = [].
Proof.
  rewrite contents_after_read. destruct (contents st); auto; discriminate.
Qed.

(** The skipper stops in front of a character that is not layout, or at the
    end of the input. *)
Lemma skip_head (fuel : nat) :
  forall st s,
    skip_whitespace_and_comments fuel st = Some (tt, s) ->
    isspace (hd_error (contents s)) = false.
Proof.
  induction fuel as [|fuel IH]; intros st s; [discriminate|].
  simpl. unfold bind at 1. rewrite read_char_eq.
  unfold bind at 1.
  destruct (while_read fuel ws_cond keep (hd_error (contents st)) tt
              (after_read st)) as [[[c []] st1]|] eqn:E1; [|discriminate].
  apply while_read_exit in E1 as [Hc Hn]; [|apply after_read_none].
  cbn [fst].
  assert (Comment : forall B (cond : cint -> B -> bool) body b s0,
    (ch <- read_char ;; while_read fuel cond body ch b ;;;
     skip_whitespace_and_comments fuel) s0 = Some (tt, s) ->
    isspace (hd_error (contents s)) = false).
  { intros B cond body b s0. unfold bind at 1. rewrite read_char_eq.
    unfold bind.
    destruct (while_read fuel cond body (hd_error (contents s0)) b
                (after_read s0)) as [[[c4 b4] s4]|]; [|discriminate].
    apply IH. }
  destruct (is_chr "/" c) eqn:Hslash.
  - apply is_chr_true in Hslash; subst c.
    unfold bind at 1. rewrite read_char_eq.
    destruct (is_chr "/" (hd_error (contents st1))); [apply Comment|].
    destruct (is_chr "*" (hd_error (contents st1))); [apply Comment|].
    unfold bind. rewrite !unread_char_eq. intros [= <-].
    rewrite contents_after_unread. reflexivity.
  - rewrite unread_char_eq. intros [= <-].
    rewrite contents_after_unread. destruct c as [x|]; simpl.
    + exact Hc.
    + rewrite (Hn eq_refl). reflexivity.
Qed.

Lemma layout_skipped_head st s :
  layout_skipped st s -> isspace (hd_error (contents s)) = false.
Proof. intros [fuel E]. exact (skip_head _ _ _ E). Qed.

(** When the skipper leaves nothing, [next_token] answers [TOK_EOF] at the
    counters the skipper stopped with. *)
Lemma next_token_after_layout_eof st s :
  layout_skipped st s ->
  contents s = [] ->
  next_token st =
  Some (make_token TOK_EOF (str "EOF") (g_line s) (g_col s), s).
Proof.
  intros Hskip H. unfold next_token, next_token_fuel.
  unfold bind at 1. rewrite (layout_skipped_fuel _ _ Hskip).
  unfold bind at 1. rewrite read_char_eq, H. cbn [hd_error].
  rewrite (after_read_eof _ H). reflexivity.
Qed.

(** Every token is made by [make_token], at the counters the skipper stopped
    with, and its kind is one the first character of the lexeme allows. *)
Lemma next_token_made st s t st' :
  layout_skipped st s ->
  next_token st = Some (t, st') ->
  made_at (kind_of_start (hd_error (contents s)))
    (g_line s)
    (match contents s with [] => g_col s | _ :: _ => g_col s + 1 end)%Z t.
Proof.
  intros Hskip. pose proof (layout_skipped_head _ _ Hskip) as Hsp.
  destruct (contents s) as [|a l] eqn:H.
  - rewrite (next_token_after_layout_eof _ _ Hskip H). intros [= <- _].
    apply made_at_intro. reflexivity.
  - rewrite (next_token_after_layout _ _ _ _ Hskip H).
    cbn [hd_error] in *.
    destruct (peeked_spec a l s H (isspace_NL _ Hsp)) as (_ & Hl & Hc).
    rewrite <- Hl, <- Hc. unfold kind_of_start.
    destruct (isalpha (Some a) || is_chr "_" (Some a));
      [apply read_identifier_or_keyword_made|].
    destruct (isdigit (Some a)); [apply read_number_made|].
    destruct (is_chr DQUOTE (Some a)); [apply read_string_made|].
    destruct (is_chr "'" (Some a)); [apply read_char_literal_made|].
    apply read_operator_or_separator_made.
Qed.

(* ================================================================= *)
(** ** Further properties *)

(** X1.  The text of every token [next_token] returns is a C string of at
    most 255 characters: it is never longer than the lexeme buffer and holds
    no NUL. *)
Theorem token_text_is_bounded_c_string (st st' : State) (t : Token) :
  next_token st = Some (t, st') ->
  List.length (lexeme t) <= 255 /\
  forallb (fun a => negb (Ascii.eqb a NUL)) (lexeme t) = true.
Proof.
  intros E. destruct (skip_spec (remaining st + 2) st) as (s & Es & _); [lia|].
  destruct (next_token_made st s t st' (ex_intro _ _ Es) E)
    as (ty & lex & -> & _).
  apply c_text_make_token.
Qed.

Lemma token_text_is_bounded_c_string_witness :
  List.length (str "42") <= 255 /\
  forallb (fun a => negb (Ascii.eqb a NUL)) (str "42") = true.
Proof.
  exact (token_text_is_bounded_c_string
           (start (str "  42;"))
           (mkState 1 4 (mkFILE [";"%char] [] 1))
           (mkToken TOK_INT (str "42") 1 3) eq_refl).
Defined.

(** X2.  The kind of a token is decided by the first character after the
    layout: a letter or underscore gives a keyword or an identifier, a digit
    an integer or a float, a double quote a string or an error, a single
    quote a character literal or an error, anything else a separator, an
    operator or an unknown token; and [TOK_EOF] is answered exactly when
    nothing is left after the layout. *)
Theorem kind_decided_by_first_character (st s st' : State) (t : Token) :
  layout_skipped st s ->
  next_token st = Some (t, st') ->
  kind_of_start (hd_error (contents s)) (type t) /\
  (type t = TOK_EOF <-> contents s = []).
Proof.
  intros Hskip E.
  destruct (next_token_made st s t st' Hskip E) as (ty & lex & -> & Hk).
  split; [exact Hk|]. cbn [type make_token].
  destruct (contents s) as [|a l]; cbn [hd_error] in Hk.
  - split; auto.
  - split; [|discriminate]. intros ->. exfalso. unfold kind_of_start in Hk.
    destruct (isalpha (Some a) || is_chr "_" (Some a));
      [destruct Hk; discriminate|].
    destruct (isdigit (Some a)); [destruct Hk; discriminate|].
    destruct (is_chr DQUOTE (Some a)); [destruct Hk; discriminate|].
    destruct (is_chr "'" (Some a)); [destruct Hk; discriminate|].
    destruct Hk as [|[|]]; discriminate.
Qed.

Lemma kind_decided_by_first_character_witness :
  kind_of_start (Some "4"%char) TOK_INT /\
  (TOK_INT = TOK_EOF <-> str "42;" = []).
Proof.
  refine (kind_decided_by_first_character
            (start (str "  42;"))
            (mkState 1 2 (mkFILE ["4"%char] (str "2;") 1))
            (mkState 1 4 (mkFILE [";"%char] [] 1))
            (mkToken TOK_INT (str "42") 1 3) _ eq_refl).
  exists 9. vm_compute. reflexivity.
Defined.

(** X3.  Every token carries the line counter the scanner holds when the
    layout has been skipped, and the column counter plus one; [TOK_EOF]
    carries the column counter itself. *)
Theorem token_position_is_counters_after_layout (st s st' : State)
    (t : Token) :
  layout_skipped st s ->
  next_token st = Some (t, st') ->
  line t = g_line s /\
  col t = (match contents s with [] => g_col s | _ :: _ => g_col s + 1 end)%Z.
Proof.
  intros Hskip E.
  destruct (next_token_made st s t st' Hskip E) as (ty & lex & -> & _).
  split; reflexivity.
Qed.

Lemma token_position_is_counters_after_layout_witness :
  2%Z = 2%Z /\ 1%Z = 1%Z.
Proof.
  refine (token_position_is_counters_after_layout
            (start (" "%char :: NL :: str " "))
            (mkState 2 1 (mkFILE [] [] 0))
            (mkState 2 1 (mkFILE [] [] 0))
            (mkToken TOK_EOF (str "EOF") 2 1) _ eq_refl).
  exists 9. vm_compute. reflexivity.
Defined.

(** X4.  [read_char] followed by [unread_char] of the character read puts the
    stream back as it was.  The column counter is restored as well, and so is
    the line counter unless the character is a newline: a newline that is
    read and pushed back leaves the line counter one higher and the column
    counter at 0.  At the end of the input both calls change nothing. *)
Theorem read_then_unread (st : State) :
  exists c st1 st2,
    read_char st = Some (c, st1) /\
    unread_char c st1 = Some (tt, st2) /\
    c = hd_error (contents st) /\
    contents st2 = contents st /\
    g_line st2 = (if is_chr NL c then g_line st + 1 else g_line st)%Z /\
    g_col st2 = (if is_chr NL c then 0 else g_col st)%Z /\
    (c = EOF -> st2 = st).
Proof.
  exists (hd_error (contents st)), (after_read st),
    (after_unread (hd_error (contents st)) (after_read st)).
  split; [apply read_char_eq|]. split; [apply unread_char_eq|].
  split; [reflexivity|].
  split; [rewrite contents_after_unread; apply ahead_after_read|].
  rewrite g_line_after_unread, g_col_after_unread.
  destruct (contents st) as [|a l] eqn:H; cbn [hd_error is_chr].
  - rewrite (after_read_eof _ H). auto.
  - rewrite (g_line_after_read _ _ _ H), (g_col_after_read _ _ _ H).
    destruct (Ascii.eqb a NL); repeat split; try lia; discriminate.
Qed.

(* ----------------------------------------------------------------- *)
(** *** The line counter *)

Lemma line_mono_ret {A} (a : A) : line_mono (ret a).
Proof. intros st b st' [= _ <-]. lia. Qed.

Lemma line_mono_out_of_fuel {A} : line_mono (@out_of_fuel A).
Proof. intros st a st'; discriminate. Qed.

Lemma line_mono_bind {A B} (m : Lex A) (k : A -> Lex B) :
  line_mono m -> (forall a, line_mono (k a)) -> line_mono (bind m k).
Proof.
  intros Hm Hk st b st'. unfold bind.
  destruct (m st) as [[a st1]|] eqn:E; [|discriminate].
  intros E'. apply Hm in E. apply Hk in E'. lia.
Qed.

Lemma line_mono_get_line : line_mono get_line.
Proof. intros st a st' [= _ <-]. lia. Qed.

Lemma line_mono_get_col : line_mono get_col.
Proof. intros st a st' [= _ <-]. lia. Qed.

Lemma line_mono_read_char : line_mono read_char.
Proof.
  intros st c st'. rewrite read_char_eq. intros [= _ <-].
  destruct (contents st) as [|a l] eqn:H.
  - rewrite (after_read_eof _ H). lia.
  - rewrite (g_line_after_read _ _ _ H). destruct (Ascii.eqb a NL); lia.
Qed.

Lemma line_mono_unread_char c : line_mono (unread_char c).
Proof.
  intros st a st'. rewrite unread_char_eq. intros [= _ <-].
  rewrite g_line_after_unread. lia.
Qed.

Lemma line_mono_while_read {A} (cond : cint -> A -> bool) body (fuel : nat) :
  forall c a, line_mono (while_read fuel cond body c a).
Proof.
  induction fuel as [|fuel IH]; intros c a; simpl; destruct (cond c a);
    auto using line_mono_ret, line_mono_out_of_fuel.
  apply line_mono_bind; [apply line_mono_read_char|]. intros c'. apply IH.
Qed.

Ltac line_mono_steps :=
  repeat first
    [ apply line_mono_ret
    | apply line_mono_out_of_fuel
    | apply line_mono_read_char
    | apply line_mono_unread_char
    | apply line_mono_get_line
    | apply line_mono_get_col
    | apply line_mono_while_read
    | apply line_mono_bind; [|intros ?]
    | match goal with
      | |- line_mono (if ?b then _ else _) => destruct b
      | |- line_mono (match ?c with Some _ => _ | None => _ end) => destruct c
      | |- line_mono (let (_, _) := ?r in _) => destruct r
      end ].

Lemma line_mono_skip (fuel : nat) :
  line_mono (skip_whitespace_and_comments fuel).
Proof.
  induction fuel as [|fuel IH]; simpl; line_mono_steps; exact IH.
Qed.

Lemma line_mono_read_string_loop (fuel : nat) (sl sc : Z) :
  forall c buf, line_mono (read_string_loop fuel c buf sl sc).
Proof.
  induction fuel as [|fuel IH]; intros c buf; simpl; line_mono_steps;
    apply IH.
Qed.

Lemma line_mono_next_token_fuel (fuel : nat) :
  line_mono (next_token_fuel fuel).
Proof.
  unfold next_token_fuel, read_identifier_or_keyword, read_number,
    read_string, read_char_literal, read_operator_or_separator.
  line_mono_steps;
    first [apply line_mono_skip | apply line_mono_read_string_loop].
Qed.

Lemma line_mono_next_token : line_mono next_token.
Proof. intros st t st'. apply line_mono_next_token_fuel. Qed.

(** The line of a token lies between the line counter before the call and
    the line counter after it. *)
Lemma token_line_between st t st' :
  next_token st = Some (t, st') ->
  (g_line st <= line t <= g_line st')%Z.
Proof.
  intros E. destruct (skip_spec (remaining st + 2) st) as (s & Es & _); [lia|].
  assert (Hskip : layout_skipped st s) by (exists (remaining st + 2); exact Es).
  assert (Hl : line t = g_line s).
  { destruct (next_token_made _ _ _ _ Hskip E) as (ty & lex & -> & _).
    reflexivity. }
  pose proof (line_mono_skip _ _ _ _ Es) as H1. rewrite Hl.
  split; [exact H1|].
  revert E. unfold next_token, next_token_fuel. unfold bind at 1.
  rewrite Es. intros E. refine ((_ : line_mono _) s t st' E).
  unfold read_identifier_or_keyword, read_number,
    read_string, read_char_literal, read_operator_or_separator.
  line_mono_steps; apply line_mono_read_string_loop.
Qed.

Lemma calls_lines_sorted (n : nat) :
  forall st st' ts,
    calls n st = Some (ts, st') ->
    StronglySorted Z.le (map line ts) /\
    Forall (fun t => (g_line st <= line t <= g_line st')%Z) ts /\
    (g_line st <= g_line st')%Z.
Proof.
  induction n as [|n IH]; intros st st' ts; simpl.
  - intros [= <- <-]. repeat split; [constructor|constructor|lia].
  - unfold bind at 1.
    destruct (next_token st) as [[t st1]|] eqn:E; [|discriminate].
    unfold bind.
    destruct (calls n st1) as [[ts1 st2]|] eqn:E1; [|discriminate].
    intros [= <- <-]. destruct (IH _ _ _ E1) as (Hs & Hf & Hl).
    pose proof (token_line_between _ _ _ E) as Hb.
    repeat split.
    + simpl. constructor; [exact Hs|].
      rewrite Forall_map. eapply Forall_impl; [|exact Hf].
      simpl. intros; lia.
    + constructor; [lia|]. eapply Forall_impl; [|exact Hf].
      simpl. intros; lia.
    + lia.
Qed.

Lemma to_int_in_range z : (INT_MIN <= z <= INT_MAX)%Z -> to_int z = z.
Proof.
  unfold to_int, INT_MIN, INT_MAX. intros H.
  rewrite Z.mod_small by lia. lia.
Qed.

(** X5.  As long as the line counter stays in the range of an [int], it
    never goes back, and tokens are reported in line order: over any number
    of successive calls of [next_token] that start with the line counter at
    [INT_MIN] or above and end with it at [INT_MAX] or below, the lines the
    program reports never decrease, and each lies between the line counter
    before the first call and the line counter after the last.  (Beyond
    [INT_MAX] the counter of the program wraps around.) *)
Theorem token_lines_never_decrease (n : nat) (st st' : State)
    (ts : list Token) :
  calls n st = Some (ts, st') ->
  (INT_MIN <= g_line st)%Z ->
  (g_line st' <= INT_MAX)%Z ->
  StronglySorted Z.le (map (fun t => to_int (line t)) ts) /\
  Forall (fun t => (to_int (g_line st) <= to_int (line t)
                    <= to_int (g_line st'))%Z) ts /\
  (to_int (g_line st) <= to_int (g_line st'))%Z.
Proof.
  intros E Hlo Hhi.
  destruct (calls_lines_sorted n st st' ts E) as (Hs & Hf & Hl).
  assert (Hin : Forall (fun t => to_int (line t) = line t) ts).
  { eapply Forall_impl; [|exact Hf]. simpl. intros t Ht.
    apply to_int_in_range. lia. }
  rewrite !to_int_in_range by lia.
  assert (Hmap : map (fun t => to_int (line t)) ts = map line ts).
  { clear - Hin. induction Hin as [|t ts Ht _ IH]; simpl; congruence. }
  rewrite Hmap. split; [exact Hs|]. split; [|exact Hl].
  rewrite Forall_forall in Hf, Hin |- *. intros t Ht.
  rewrite (Hin t Ht). apply Hf, Ht.
Qed.

Lemma token_lines_never_decrease_witness :
  StronglySorted Z.le
    (map (fun t => to_int (line t))
       [mkToken TOK_IDENTIFIER (str "a") 1 1;
        mkToken TOK_IDENTIFIER (str "b") 2 1;
        mkToken TOK_SEPARATOR (str ";") 2 2]) /\
  Forall (fun t => (to_int 1 <= to_int (line t) <= to_int 2)%Z)
    [mkToken TOK_IDENTIFIER (str "a") 1 1;
     mkToken TOK_IDENTIFIER (str "b") 2 1;
     mkToken TOK_SEPARATOR (str ";") 2 2] /\
  (to_int 1 <= to_int 2)%Z.
Proof.
  refine (token_lines_never_decrease 3
            (start (str "a //c" ++ NL :: str "b;"))
            (mkState 2 2 (mkFILE [] [] 1))
            [mkToken TOK_IDENTIFIER (str "a") 1 1;
             mkToken TOK_IDENTIFIER (str "b") 2 1;
             mkToken TOK_SEPARATOR (str ";") 2 2] eq_refl _ _).
  - unfold INT_MIN. simpl. lia.
  - unfold INT_MAX. simpl. lia.
Defined.

(** X6.  A call of [next_token] that returns a token other than [TOK_EOF]
    takes at least one character from the stream, and [TOK_EOF] is returned
    only when the stream is used up. *)
Theorem token_consumes_input (st st' : State) (t : Token) :
  next_token st = Some (t, st') ->
  (type t <> TOK_EOF -> remaining st' < remaining st) /\
  (type t = TOK_EOF -> contents st' = []).
Proof.
  intros E. destruct (next_token_spec st) as (t0 & st0 & E0 & L).
  rewrite E in E0; injection E0 as <- <-.
  split; [exact (lexed_progress _ _ _ L)|exact (lexed_eof _ _ _ L)].
Qed.

Lemma token_consumes_input_witness :
  (TOK_INT <> TOK_EOF -> 1 < 5) /\
  (TOK_INT = TOK_EOF -> [";"%char] = []).
Proof.
  exact (token_consumes_input
           (start (str "  42;"))
           (mkState 1 4 (mkFILE [";"%char] [] 1))
           (mkToken TOK_INT (str "42") 1 3) eq_refl).
Defined.

(* ----------------------------------------------------------------- *)
(** *** The loop of [main] *)

Lemma main_loop_until_error (f1 : nat) :
  forall f2 st ts s1 tcs s2,
    main_loop f1 st = Some (ts, s1) ->
    scan_loop f2 st = Some (tcs, s2) ->
    ts = until_error (map fst tcs).
Proof.
  induction f1 as [|f1 IH]; intros f2 st ts s1 tcs s2; [discriminate|].
  destruct f2 as [|f2]; [discriminate|]. simpl. intros H1 H2.
  unfold bind at 1 in H1. unfold bind at 1, next_token_chunk in H2.
  destruct (next_token st) as [[t st1]|]; [|discriminate].
  revert H1 H2. cbn [fst].
  assert (Hmore :
    (ts0 <- main_loop f1 ;; ret (t :: ts0)) st1 = Some (ts, s1) ->
    (tcs0 <- scan_loop f2 ;; ret ((t, consumed st st1) :: tcs0)) st1 =
      Some (tcs, s2) ->
    type t <> TOK_ERROR ->
    ts = until_error (map fst tcs)).
  { unfold bind.
    destruct (main_loop f1 st1) as [[ts0 u1]|] eqn:E1; [|discriminate].
    destruct (scan_loop f2 st1) as [[tcs0 u2]|] eqn:E2; [|discriminate].
    unfold ret. intros [= <- _] [= <- _] Ht. simpl.
    rewrite <- (IH _ _ _ _ _ _ E1 E2).
    destruct (type t); try reflexivity. contradiction Ht; reflexivity. }
  destruct (type t) eqn:Ht;
    try (intros H1 H2; apply Hmore; [exact H1|exact H2|discriminate]).
  - unfold ret. intros [= <- _] [= <- _]. simpl. rewrite Ht. reflexivity.
  - unfold ret at 1. intros [= <- _]. unfold bind.
    destruct (scan_loop f2 st1) as [[tcs0 u2]|]; [|discriminate].
    unfold ret. intros [= <- _]. simpl. rewrite Ht. reflexivity.
Qed.

(** X7.  What [main] prints is the token sequence of the input cut after
    its first [TOK_ERROR]: [main] stops at the first error or at [TOK_EOF],
    whichever comes first, and prints every token up to there. *)
Theorem main_is_scan_until_error (input : list ascii) :
  exists ts,
    tokens input = Some ts /\
    main input = Some (until_error ts).
Proof.
  destruct (scan_loop_spec (S (List.length input)) (start input))
    as (tcs & s2 & E2 & _); [rewrite remaining_start; lia|].
  destruct (main_loop_total (S (List.length input)) (start input))
    as ([ts s1] & E1); [rewrite remaining_start; lia|].
  exists (map fst tcs). unfold tokens, scan, main, run. rewrite E1, E2.
  split; [reflexivity|].
  rewrite (main_loop_until_error _ _ _ _ _ _ _ E1 E2). reflexivity.
Qed.

(* ================================================================= *)
(** ** Fuel *)

Lemma fuel_mono_const {A} (m : Lex A) : fuel_mono (fun _ => m).
Proof. intros f f' st r _ H; exact H. Qed.

Lemma fuel_mono_bind {A B} (m : nat -> Lex A) (k : nat -> A -> Lex B) :
  fuel_mono m -> (forall a, fuel_mono (fun f => k f a)) ->
  fuel_mono (fun f => bind (m f) (k f)).
Proof.
  intros Hm Hk f f' st r Hle. unfold bind.
  destruct (m f st) as [[a st1]|] eqn:E; [|discriminate].
  rewrite (Hm _ _ _ _ Hle E). apply Hk. exact Hle.
Qed.

Lemma fuel_mono_while_read {A} (cond : cint -> A -> bool) body c a :
  fuel_mono (fun f => while_read f cond body c a).
Proof. intros f f' st r Hle. apply while_read_mono. exact Hle. Qed.

Lemma fuel_mono_skip : fuel_mono skip_whitespace_and_comments.
Proof. intros f f' st r Hle. apply skip_mono. exact Hle. Qed.

Lemma fuel_mono_read_string_loop (sl sc : Z) c buf :
  fuel_mono (fun f => read_string_loop f c buf sl sc).
Proof.
  intros f. revert c buf.
  induction f as [|f IH]; intros c buf f' st r Hle;
    (destruct c as [a|]; [|destruct f'; simpl; auto]);
    simpl;
    (destruct (Ascii.eqb a DQUOTE) eqn:Hq;
     [destruct f'; simpl; rewrite Hq; auto|]);
    (destruct (Ascii.eqb a NL) eqn:Hn;
     [destruct f'; simpl; rewrite Hq, Hn; auto|]).
  - discriminate.
  - destruct f' as [|f']; [lia|]. simpl. rewrite Hq, Hn.
    destruct (Ascii.eqb a "\").
    + unfold bind at 1 3. rewrite read_char_eq.
      destruct (hd_error (contents st)) as [e|]; auto.
      unfold bind. rewrite read_char_eq. apply IH. lia.
    + unfold bind. rewrite read_char_eq. apply IH. lia.
Qed.

Lemma fuel_mono_next_token_fuel : fuel_mono next_token_fuel.
Proof.
  unfold next_token_fuel.
  apply fuel_mono_bind; [apply fuel_mono_skip|]. intros _.
  apply (fuel_mono_bind (fun _ => read_char)); [apply fuel_mono_const|].
  intros [a|]; [|apply fuel_mono_const].
  apply (fuel_mono_bind (fun _ => unread_char (Some a)));
    [apply fuel_mono_const|]. intros _.
  apply (fuel_mono_bind (fun _ => read_char)); [apply fuel_mono_const|].
  intros c.
  apply (fuel_mono_bind (fun _ => unread_char c)); [apply fuel_mono_const|].
  intros _.
  destruct (isalpha c || is_chr "_" c).
  { unfold read_identifier_or_keyword.
    apply (fuel_mono_bind (fun _ => get_line)); [apply fuel_mono_const|].
    intros sl.
    apply (fuel_mono_bind (fun _ => get_col)); [apply fuel_mono_const|].
    intros gc.
    apply (fuel_mono_bind (fun _ => read_char)); [apply fuel_mono_const|].
    intros c1.
    apply fuel_mono_bind; [apply fuel_mono_while_read|].
    intros r. apply fuel_mono_const. }
  destruct (isdigit c).
  { unfold read_number.
    apply (fuel_mono_bind (fun _ => get_line)); [apply fuel_mono_const|].
    intros sl.
    apply (fuel_mono_bind (fun _ => get_col)); [apply fuel_mono_const|].
    intros gc.
    apply (fuel_mono_bind (fun _ => read_char)); [apply fuel_mono_const|].
    intros c1.
    apply fuel_mono_bind; [apply fuel_mono_while_read|].
    intros [c2 buf]. destruct (is_chr "." c2); [|apply fuel_mono_const].
    apply (fuel_mono_bind (fun _ => read_char)); [apply fuel_mono_const|].
    intros c3.
    apply fuel_mono_bind; [apply fuel_mono_while_read|].
    intros r. apply fuel_mono_const. }
  destruct (is_chr DQUOTE c).
  { unfold read_string.
    apply (fuel_mono_bind (fun _ => get_line)); [apply fuel_mono_const|].
    intros sl.
    apply (fuel_mono_bind (fun _ => get_col)); [apply fuel_mono_const|].
    intros gc.
    apply (fuel_mono_bind (fun _ => read_char)); [apply fuel_mono_const|].
    intros _.
    apply (fuel_mono_bind (fun _ => read_char)); [apply fuel_mono_const|].
    intros c1. apply fuel_mono_read_string_loop. }
  destruct (is_chr "'" c); apply fuel_mono_const.
Qed.

(** With any fuel above the one [next_token] supplies the result is that of
    [next_token]. *)
Lemma next_token_fuel_enough (fuel : nat) st :
  remaining st + 2 <= fuel -> next_token_fuel fuel st = next_token st.
Proof.
  intros Hle. destruct (next_token_spec st) as (t & st' & E & _).
  rewrite E. apply (fuel_mono_next_token_fuel _ _ _ _ Hle). exact E.
Qed.

Lemma bind_some {A B} (m : Lex A) (k : A -> Lex B) st a st1 :
  m st = Some (a, st1) -> bind m k st = k a st1.
Proof. intros H. unfold bind. rewrite H. reflexivity. Qed.

(** The token depends on the stream only through the state in which the
    skipper stops. *)
Lemma next_token_same_layout st st' s :
  layout_skipped st s -> layout_skipped st' s ->
  next_token st = next_token st'.
Proof.
  intros H H'.
  apply layout_skipped_fuel in H. apply layout_skipped_fuel in H'.
  set (F := Nat.max (remaining st + 2) (remaining st' + 2)).
  apply (skip_mono _ F) in H; [|lia]. apply (skip_mono _ F) in H'; [|lia].
  rewrite <- (next_token_fuel_enough F st) by lia.
  rewrite <- (next_token_fuel_enough F st') by lia.
  unfold next_token_fuel.
  rewrite (bind_some _ _ _ _ _ H), (bind_some _ _ _ _ _ H'). reflexivity.
Qed.

Lemma next_token_same_skip st st' (f f' : nat) :
  remaining st < f ->
  skip_whitespace_and_comments f st = skip_whitespace_and_comments f' st' ->
  next_token st = next_token st'.
Proof.
  intros Hf E. destruct (skip_spec f st Hf) as (s & Es & _).
  apply next_token_same_layout with (s := s).
  - exists f; exact Es.
  - exists f'. rewrite <- E. exact Es.
Qed.

(* ================================================================= *)
(** ** Layout *)

Lemma drain_S n st : drain (S n) st = drain n (after_read st).
Proof. unfold drain. apply Nat.iter_succ_r. Qed.

Lemma drain_add n m st : drain n (drain m st) = drain (n + m) st.
Proof. unfold drain. symmetry. apply Nat.iter_add. Qed.

Lemma contents_drain n :
  forall st, contents (drain n st) = skipn n (contents st).
Proof.
  induction n as [|n IH]; intros st; [reflexivity|].
  rewrite drain_S, IH, contents_after_read.
  destruct (contents st); [apply skipn_nil|reflexivity].
Qed.

Lemma contents_drain_app s rest st :
  contents st = s ++ rest -> contents (drain (List.length s) st) = rest.
Proof.
  intros H. rewrite contents_drain, H, skipn_app, skipn_all, Nat.sub_diag.
  reflexivity.
Qed.

Lemma counters_drain s :
  forall rest st,
    contents st = s ++ rest ->
    (g_line (drain (List.length s) st), g_col (drain (List.length s) st)) =
    counters_after s (g_line st) (g_col st).
Proof.
  induction s as [|a s IH]; intros rest st H; [reflexivity|].
  cbn [List.length]. rewrite drain_S. simpl in H.
  rewrite (IH rest (after_read st))
    by (rewrite contents_after_read, H; reflexivity).
  rewrite (g_line_after_read _ _ _ H), (g_col_after_read _ _ _ H). simpl.
  destruct (Ascii.eqb a NL); reflexivity.
Qed.

Lemma counters_after_app s1 s2 l k :
  counters_after (s1 ++ s2) l k =
  counters_after s2 (fst (counters_after s1 l k)) (snd (counters_after s1 l k)).
Proof.
  revert l k; induction s1 as [|a s1 IH]; intros l k; simpl; auto.
  destruct (Ascii.eqb a NL); apply IH.
Qed.

(** Within a line only the column moves. *)
Lemma counters_after_line s l k :
  forallb (fun a => negb (Ascii.eqb a NL)) s = true ->
  counters_after s l k = (l, (k + Z.of_nat (List.length s))%Z).
Proof.
  revert k; induction s as [|a s IH]; intros k; simpl.
  - intros _. f_equal. lia.
  - intros H. apply andb_true_iff in H as [Ha Hs].
    destruct (Ascii.eqb a NL); [discriminate|].
    rewrite (IH _ Hs). f_equal. lia.
Qed.

(** Every list splits into its longest prefix of characters that satisfy
    [p] and the rest. *)
Lemma longest_prefix (p : ascii -> bool) (l : list ascii) :
  exists run rest,
    l = run ++ rest /\ forallb p run = true /\ maximal_run p rest.
Proof.
  induction l as [|a l (run & rest & -> & Hr & Hm)].
  - exists [], []. repeat split.
  - destruct (p a) eqn:Ha.
    + exists (a :: run), rest. repeat split; auto. simpl. rewrite Ha, Hr. auto.
    + exists [], (a :: run ++ rest). repeat split; auto.
Qed.

(** A loop that only looks at the character in hand, on the longest run of
    characters it accepts: the run is read and the character after it is in
    hand when the loop ends. *)
Lemma while_read_run {A} (p : ascii -> bool) (cond : cint -> A -> bool)
    (a : A) (rest : list ascii) :
  (forall c a, cond c a = match c with Some x => p x | None => false end) ->
  maximal_run p rest ->
  forall cs st fuel,
    forallb p cs = true ->
    contents st = cs ++ rest ->
    List.length cs <= fuel ->
    while_read fuel cond keep (hd_error (contents st)) a (after_read st) =
    Some ((hd_error rest, a), drain (S (List.length cs)) st).
Proof.
  intros Hcond Hmax. induction cs as [|x cs IH]; intros st fuel Hrun H Hf.
  - simpl in H. rewrite H.
    assert (Hc : cond (hd_error rest) a = false).
    { rewrite Hcond. destruct rest; auto. }
    destruct fuel; simpl; rewrite Hc; reflexivity.
  - simpl in H, Hrun. apply andb_true_iff in Hrun as [Hx Hrun].
    rewrite H. cbn [hd_error].
    destruct fuel as [|fuel]; [simpl in Hf; lia|].
    rewrite while_read_enter by (rewrite Hcond; exact Hx).
    unfold keep at 2.
    assert (H1 : contents (after_read st) = cs ++ rest)
      by (rewrite contents_after_read, H; reflexivity).
    rewrite (IH (after_read st) fuel Hrun H1) by (simpl in Hf; lia).
    cbn [List.length]. rewrite (drain_S (S _)). reflexivity.
Qed.

Lemma ws_cond_char c (a : unit) :
  ws_cond c a = match c with Some x => isspace (Some x) | None => false end.
Proof. destruct c; reflexivity. Qed.

Lemma line_comment_cond_char c (a : unit) :
  line_comment_cond c a =
  match c with Some x => negb (Ascii.eqb x NL) | None => false end.
Proof.
  destruct c; unfold line_comment_cond; simpl; auto.
  rewrite andb_true_r. reflexivity.
Qed.

(** The skipper in front of a maximal run of white space behaves as the
    skipper behind it. *)
Lemma skip_whitespace_run (fuel : nat) st ws rest :
  contents st = ws ++ rest ->
  forallb (fun a => isspace (Some a)) ws = true ->
  maximal_run (fun a => isspace (Some a)) rest ->
  List.length ws <= fuel ->
  skip_whitespace_and_comments (S fuel) st =
  skip_whitespace_and_comments (S fuel) (drain (List.length ws) st).
Proof.
  intros H Hws Hmax Hf. cbn [skip_whitespace_and_comments].
  pose proof (contents_drain_app _ _ _ H) as Hd.
  rewrite (bind_some _ _ _ _ _ (read_char_eq st)).
  rewrite (bind_some _ _ _ _ _ (read_char_eq (drain (List.length ws) st))).
  rewrite (bind_some _ _ _ _ _
             (while_read_run _ ws_cond tt rest ws_cond_char Hmax ws st fuel
                Hws H Hf)).
  rewrite (bind_some _ _ _ _ _
             (while_read_run _ ws_cond tt rest ws_cond_char Hmax []
                (drain (List.length ws) st) fuel eq_refl Hd (Nat.le_0_l _))).
  reflexivity.
Qed.

Lemma ws_loop_stop (fuel : nat) c st :
  isspace c = false ->
  while_read fuel ws_cond keep c tt st = Some ((c, tt), st).
Proof.
  intros H. destruct fuel; cbn [while_read]; unfold ws_cond at 1; rewrite H;
    reflexivity.
Qed.

(** Scanning from a state that holds the characters [rest] at the counters
    reached after [cs] gives the token that the state behind [cs] gives. *)
Lemma run_next_token_behind st st' cs rest :
  contents st = cs ++ rest ->
  contents st' = rest ->
  (g_line st', g_col st') = counters_after cs (g_line st) (g_col st) ->
  run next_token (drain (List.length cs) st) = run next_token st'.
Proof.
  intros H H' Hc. apply run_respects; [apply respects_next_token|].
  pose proof (counters_drain cs rest st H) as Hd. rewrite <- Hc in Hd.
  injection Hd as Hl Hk.
  repeat split; auto. rewrite (contents_drain_app _ _ _ H). auto.
Qed.

Lemma run_eq {A} (m : Lex A) st st' : m st = m st' -> run m st = run m st'.
Proof. unfold run. intros ->. reflexivity. Qed.

(** X8.  White space in front of a token is skipped and counted: scanning
    [ws ++ rest], where [ws] is white space, gives the token that scanning
    [rest] gives from the line and column reached after [ws], and leaves the
    scanner with the same characters still to be read and the same
    counters. *)
Theorem whitespace_is_skipped (st st' : State) (ws rest : list ascii) :
  contents st = ws ++ rest ->
  forallb (fun a => isspace (Some a)) ws = true ->
  contents st' = rest ->
  (g_line st', g_col st') = counters_after ws (g_line st) (g_col st) ->
  exists t s1 s2,
    next_token st = Some (t, s1) /\
    next_token st' = Some (t, s2) /\
    same_view s1 s2.
Proof.
  intros H Hws H' Hc.
  assert (E : next_token st = next_token (drain (List.length ws) st)).
  { destruct (longest_prefix (fun a => isspace (Some a)) rest)
      as (ws2 & rest2 & Hrest & Hws2 & Hmax).
    apply next_token_same_skip
      with (f := S (remaining st)) (f' := S (remaining st)); [lia|].
    assert (Hlen : List.length (ws ++ ws2) <= remaining st).
    { unfold remaining. rewrite H, Hrest, !length_app. lia. }
    rewrite (skip_whitespace_run _ st (ws ++ ws2) rest2);
      [|rewrite H, Hrest, app_assoc; reflexivity
       |rewrite forallb_app, Hws, Hws2; reflexivity|exact Hmax|exact Hlen].
    rewrite (skip_whitespace_run _ (drain (List.length ws) st) ws2 rest2);
      [|rewrite (contents_drain_app _ _ _ H); exact Hrest|exact Hws2
       |exact Hmax|rewrite length_app in Hlen; lia].
    rewrite drain_add, length_app, Nat.add_comm. reflexivity. }
  assert (Hv : same_view (drain (List.length ws) st) st').
  { pose proof (counters_drain ws rest st H) as Hd. rewrite <- Hc in Hd.
    injection Hd as Hl Hk.
    repeat split; auto. rewrite (contents_drain_app _ _ _ H). auto. }
  pose proof (respects_next_token _ _ Hv) as Hr. rewrite <- E in Hr.
  destruct (next_token_spec st) as (t & s1 & E1 & _). rewrite E1 in Hr.
  destruct (next_token st') as [[t2 s2]|]; [|contradiction].
  destruct Hr as [<- Hs]. exists t, s1, s2. auto.
Qed.

Lemma whitespace_is_skipped_witness :
  exists t s1 s2,
    next_token (start (" "%char :: NL :: str "  x")) = Some (t, s1) /\
    next_token (mkState 2 2 (fopen (str "x"))) = Some (t, s2) /\
    same_view s1 s2.
Proof.
  exact (whitespace_is_skipped
           (start (" "%char :: NL :: str "  x"))
           (mkState 2 2 (fopen (str "x")))
           (" "%char :: NL :: str "  ") (str "x")
           eq_refl eq_refl eq_refl eq_refl).
Defined.

(** The skipper in front of a line comment behaves as the skipper behind the
    comment and the character that ends it. *)
Lemma skip_line_comment (fuel : nat) st body rest :
  contents st = "/"%char :: "/"%char :: body ++ rest ->
  forallb (fun a => negb (Ascii.eqb a NL)) body = true ->
  maximal_run (fun a => negb (Ascii.eqb a NL)) rest ->
  List.length body <= fuel ->
  skip_whitespace_and_comments (S fuel) st =
  skip_whitespace_and_comments fuel (drain (3 + List.length body) st).
Proof.
  intros H Hbody Hmax Hf. cbn [skip_whitespace_and_comments].
  rewrite (bind_some _ _ _ _ _ (read_char_eq st)), H. cbn [hd_error].
  rewrite (bind_some _ _ _ _ _
             (ws_loop_stop fuel (Some "/"%char) _ eq_refl)).
  cbn [fst]. change (is_chr "/" (Some "/"%char)) with true. cbv iota.
  assert (H1 : contents (after_read st) = "/"%char :: body ++ rest)
    by (rewrite contents_after_read, H; reflexivity).
  rewrite (bind_some _ _ _ _ _ (read_char_eq (after_read st))), H1.
  cbn [hd_error]. change (is_chr "/" (Some "/"%char)) with true. cbv iota.
  assert (H2 : contents (after_read (after_read st)) = body ++ rest)
    by (rewrite contents_after_read, H1; reflexivity).
  rewrite (bind_some _ _ _ _ _ (read_char_eq (after_read (after_read st)))).
  rewrite (bind_some _ _ _ _ _
             (while_read_run _ line_comment_cond tt rest
                line_comment_cond_char Hmax body _ fuel Hbody H2 Hf)).
  change (after_read (after_read st)) with (drain 2 st).
  rewrite drain_add. f_equal. f_equal. lia.
Qed.

(** X9.  A line comment is skipped together with the newline that ends it:
    scanning a stream that starts with two slashes, a rest of line and a
    newline gives the token that scanning what follows the newline gives
    from column 0 of the next line. *)
Theorem line_comment_is_skipped (st st' : State) (body rest : list ascii) :
  contents st = "/"%char :: "/"%char :: body ++ NL :: rest ->
  forallb (fun a => negb (Ascii.eqb a NL)) body = true ->
  contents st' = rest ->
  g_line st' = (g_line st + 1)%Z ->
  g_col st' = 0%Z ->
  run next_token st = run next_token st'.
Proof.
  intros H Hbody H' Hl Hk.
  assert (Hst : contents st = ("/"%char :: "/"%char :: body ++ [NL]) ++ rest).
  { rewrite H. simpl. rewrite <- app_assoc. reflexivity. }
  rewrite <- (run_next_token_behind st st' _ rest Hst H').
  - apply run_eq.
    apply next_token_same_skip
      with (f := S (remaining st)) (f' := remaining st); [lia|].
    rewrite (skip_line_comment _ st body (NL :: rest) H Hbody eq_refl).
    + f_equal. f_equal. simpl. rewrite length_app. simpl. lia.
    + unfold remaining. rewrite H. simpl. rewrite length_app. lia.
  - change ("/"%char :: "/"%char :: body ++ [NL])
      with (("/"%char :: "/"%char :: body) ++ [NL]).
    rewrite counters_after_app.
    rewrite (counters_after_line ("/"%char :: "/"%char :: body))
      by exact Hbody.
    simpl. rewrite Hl, Hk. reflexivity.
Qed.

Lemma line_comment_is_skipped_witness :
  run next_token (start (str "// a" ++ NL :: str "b")) =
  run next_token (mkState 2 0 (fopen (str "b"))).
Proof.
  exact (line_comment_is_skipped
           (start (str "// a" ++ NL :: str "b"))
           (mkState 2 0 (fopen (str "b")))
           (str " a") (str "b") eq_refl eq_refl eq_refl eq_refl eq_refl).
Defined.

Lemma block_comment_cond_eof' : forall a, block_comment_cond EOF a = false.
Proof. reflexivity. Qed.

(** The block comment loop on a comment that is closed: it stops with the
    closing slash in hand. *)
Lemma block_loop_closed (rest : list ascii) :
  forall body prev st fuel,
    unclosed prev body = true ->
    contents st = body ++ "*"%char :: "/"%char :: rest ->
    S (List.length body) <= fuel ->
    while_read fuel block_comment_cond (fun ch _ => to_char ch)
      (hd_error (contents st)) prev (after_read st) =
    Some ((Some "/"%char, "*"%char), drain (List.length body + 2) st).
Proof.
  induction body as [|x body IH]; intros prev st fuel Hu H Hf.
  - simpl in H. rewrite H. cbn [hd_error].
    destruct fuel as [|fuel]; [lia|].
    rewrite while_read_enter
      by (unfold block_comment_cond;
          change (Ascii.eqb "*"%char "/"%char) with false;
          rewrite andb_false_r; reflexivity).
    rewrite contents_after_read, H. cbn [tl hd_error to_char].
    destruct fuel; reflexivity.
  - simpl in H, Hu. apply andb_true_iff in Hu as [Hx Hu].
    rewrite H. cbn [hd_error].
    destruct fuel as [|fuel]; [lia|].
    rewrite while_read_enter by (unfold block_comment_cond; exact Hx).
    assert (H1 : contents (after_read st) =
                 body ++ "*"%char :: "/"%char :: rest)
      by (rewrite contents_after_read, H; reflexivity).
    cbn [to_char].
    rewrite (IH x (after_read st) fuel Hu H1) by (simpl in Hf; lia).
    cbn [List.length Nat.add]. rewrite (drain_S (_ + 2)). reflexivity.
Qed.

(** The block comment loop on a comment that is not closed: it runs to the
    end of the input. *)
Lemma block_loop_open :
  forall body prev st fuel,
    unclosed prev body = true ->
    contents st = body ->
    List.length body <= fuel ->
    exists p,
      while_read fuel block_comment_cond (fun ch _ => to_char ch)
        (hd_error (contents st)) prev (after_read st) =
      Some ((None, p), drain (S (List.length body)) st).
Proof.
  induction body as [|x body IH]; intros prev st fuel Hu H Hf.
  - rewrite H. exists prev. destruct fuel; reflexivity.
  - simpl in Hu. apply andb_true_iff in Hu as [Hx Hu].
    rewrite H. cbn [hd_error].
    destruct fuel as [|fuel]; [simpl in Hf; lia|].
    rewrite while_read_enter by (unfold block_comment_cond; exact Hx).
    assert (H1 : contents (after_read st) = body)
      by (rewrite contents_after_read, H; reflexivity).
    cbn [to_char].
    destruct (IH x (after_read st) fuel Hu H1) as [p Hp];
      [simpl in Hf; lia|].
    exists p. rewrite Hp. cbn [List.length]. rewrite (drain_S (S _)).
    reflexivity.
Qed.

(** The first steps of the skipper on a stream that opens a block comment. *)
Lemma skip_block_comment_open (fuel : nat) st l r st1 :
  contents st = "/"%char :: "*"%char :: l ->
  while_read fuel block_comment_cond (fun ch _ => to_char ch)
    (hd_error (contents (drain 2 st))) NUL (after_read (drain 2 st)) =
    Some (r, st1) ->
  skip_whitespace_and_comments (S fuel) st =
  skip_whitespace_and_comments fuel st1.
Proof.
  intros H E. cbn [skip_whitespace_and_comments].
  rewrite (bind_some _ _ _ _ _ (read_char_eq st)), H. cbn [hd_error].
  rewrite (bind_some _ _ _ _ _
             (ws_loop_stop fuel (Some "/"%char) _ eq_refl)).
  cbn [fst]. change (is_chr "/" (Some "/"%char)) with true. cbv iota.
  assert (H1 : contents (after_read st) = "*"%char :: l)
    by (rewrite contents_after_read, H; reflexivity).
  rewrite (bind_some _ _ _ _ _ (read_char_eq (after_read st))), H1.
  cbn [hd_error]. change (is_chr "/" (Some "*"%char)) with false.
  change (is_chr "*" (Some "*"%char)) with true. cbv iota.
  rewrite (bind_some _ _ _ _ _ (read_char_eq (after_read (after_read st)))).
  change (after_read (after_read st)) with (drain 2 st).
  rewrite (bind_some _ _ _ _ _ E). reflexivity.
Qed.

(** X10.  A block comment is skipped up to and including the first asterisk
    followed by a slash that the comment loop sees: scanning a stream that
    starts with such a comment gives the token that scanning what follows the
    comment gives from the line and column reached after it. *)
Theorem block_comment_is_skipped (st st' : State) (body rest : list ascii) :
  contents st =
    "/"%char :: "*"%char :: body ++ "*"%char :: "/"%char :: rest ->
  unclosed NUL body = true ->
  contents st' = rest ->
  (g_line st', g_col st') =
    counters_after ("/"%char :: "*"%char :: body ++ ["*"%char; "/"%char])
      (g_line st) (g_col st) ->
  run next_token st = run next_token st'.
Proof.
  intros H Hu H' Hc.
  assert (Hst : contents st =
                ("/"%char :: "*"%char :: body ++ ["*"%char; "/"%char]) ++ rest).
  { rewrite H. simpl. rewrite <- app_assoc. reflexivity. }
  rewrite <- (run_next_token_behind st st' _ rest Hst H' Hc).
  apply run_eq.
  apply next_token_same_skip
    with (f := S (remaining st)) (f' := remaining st); [lia|].
  assert (H2 : contents (drain 2 st) =
               body ++ "*"%char :: "/"%char :: rest).
  { rewrite contents_drain, H. reflexivity. }
  rewrite (skip_block_comment_open _ st _ _ _ H
             (block_loop_closed rest body NUL (drain 2 st) (remaining st)
                Hu H2 ltac:(unfold remaining; rewrite H; simpl;
                            rewrite length_app; simpl; lia))).
  rewrite drain_add. f_equal. f_equal. simpl. rewrite length_app. simpl. lia.
Qed.

Lemma block_comment_is_skipped_witness :
  run next_token (start (str "/*/" ++ NL :: str "**/x")) =
  run next_token (mkState 2 3 (fopen (str "x"))).
Proof.
  exact (block_comment_is_skipped
           (start (str "/*/" ++ NL :: str "**/x"))
           (mkState 2 3 (fopen (str "x")))
           ("/"%char :: NL :: str "*") (str "x")
           eq_refl eq_refl eq_refl eq_refl).
Defined.

(** At the end of the input [next_token] answers [TOK_EOF] whatever was
    skipped to get there. *)
Lemma next_token_skip_to_eof st (fuel : nat) s :
  remaining st < S fuel ->
  skip_whitespace_and_comments (S fuel) st =
    skip_whitespace_and_comments fuel s ->
  contents s = [] ->
  next_token st =
  Some (make_token TOK_EOF (str "EOF") (g_line s) (g_col s), s).
Proof.
  intros Hf E Hs.
  destruct (skip_spec (S fuel) st Hf) as (s0 & E0 & _).
  assert (s0 = s).
  { rewrite E in E0. destruct fuel as [|fuel]; [discriminate|].
    rewrite (skip_at_eof _ _ Hs) in E0. congruence. }
  subst s0. apply next_token_after_layout_eof; [|exact Hs].
  exists (S fuel); exact E0.
Qed.

(** The state in which a loop that has read [cs], all there is, and then the
    end of the input leaves the scanner. *)
Lemma drain_past_end cs st :
  contents st = cs ->
  contents (drain (S (List.length cs)) st) = [] /\
  (g_line (drain (S (List.length cs)) st),
   g_col (drain (S (List.length cs)) st)) =
  counters_after cs (g_line st) (g_col st).
Proof.
  intros H.
  assert (H0 : contents st = cs ++ []) by (rewrite app_nil_r; exact H).
  pose proof (contents_drain_app _ _ _ H0) as Hd.
  change (drain (S (List.length cs)) st)
    with (after_read (drain (List.length cs) st)).
  rewrite (after_read_eof _ Hd). split; [exact Hd|].
  apply (counters_drain cs [] st H0).
Qed.

(** X11.  A line comment that the input ends in is skipped without a token:
    [next_token] answers [TOK_EOF] at the counters reached at the end of the
    comment, and the stream is used up. *)
Theorem line_comment_at_end_of_input (st : State) (body : list ascii) :
  contents st = "/"%char :: "/"%char :: body ->
  forallb (fun a => negb (Ascii.eqb a NL)) body = true ->
  exists st',
    next_token st =
      Some (make_token TOK_EOF (str "EOF") (g_line st)
              (g_col st + 2 + Z.of_nat (List.length body)), st') /\
    contents st' = [].
Proof.
  intros H Hbody.
  assert (H0 : contents st = "/"%char :: "/"%char :: body ++ [])
    by (rewrite app_nil_r; exact H).
  destruct (drain_past_end _ st H) as [Hd Hc].
  rewrite (counters_after_line ("/"%char :: "/"%char :: body)) in Hc
    by exact Hbody.
  change (S (List.length ("/"%char :: "/"%char :: body)))
    with (3 + List.length body) in Hd, Hc.
  set (s := drain (3 + List.length body) st) in *.
  assert (Hl : g_line s = g_line st) by congruence.
  assert (Hk : g_col s =
               (g_col st + 2 + Z.of_nat (List.length body))%Z).
  { injection Hc as _ ->. cbn [List.length]. lia. }
  exists s.
  rewrite (next_token_skip_to_eof st (remaining st) s).
  - rewrite Hl, Hk. split; [reflexivity|exact Hd].
  - lia.
  - apply (skip_line_comment _ st body [] H0 Hbody I).
    unfold remaining. rewrite H. simpl. lia.
  - exact Hd.
Qed.

Lemma line_comment_at_end_of_input_witness :
  exists st',
    next_token (start (str "//no newline")) =
      Some (make_token TOK_EOF (str "EOF") 1 (0 + 2 + 10), st') /\
    contents st' = [].
Proof.
  exact (line_comment_at_end_of_input (start (str "//no newline"))
           (str "no newline") eq_refl eq_refl).
Defined.

(** X12.  A block comment that is never closed is skipped without an error:
    [next_token] answers [TOK_EOF] at the counters reached at the end of the
    input, and the stream is used up. *)
Theorem block_comment_at_end_of_input (st : State) (body : list ascii) :
  contents st = "/"%char :: "*"%char :: body ->
  unclosed NUL body = true ->
  exists st',
    next_token st =
      Some (make_token TOK_EOF (str "EOF")
              (fst (counters_after ("/"%char :: "*"%char :: body)
                      (g_line st) (g_col st)))
              (snd (counters_after ("/"%char :: "*"%char :: body)
                      (g_line st) (g_col st))), st') /\
    contents st' = [].
Proof.
  intros H Hu.
  destruct (drain_past_end _ st H) as [Hd Hc].
  assert (H2 : contents (drain 2 st) = body)
    by (rewrite contents_drain, H; reflexivity).
  destruct (block_loop_open body NUL (drain 2 st) (remaining st) Hu H2)
    as [p Hp].
  { unfold remaining. rewrite H. simpl. lia. }
  rewrite drain_add in Hp.
  replace (S (List.length body) + 2)
    with (S (List.length ("/"%char :: "*"%char :: body))) in Hp
    by (simpl; lia).
  exists (drain (S (List.length ("/"%char :: "*"%char :: body))) st).
  rewrite (next_token_skip_to_eof st (remaining st) _ ltac:(lia)
             (skip_block_comment_open _ st _ _ _ H Hp) Hd).
  rewrite <- Hc. split; [reflexivity|exact Hd].
Qed.

Lemma block_comment_at_end_of_input_witness :
  exists st',
    next_token (start (str "/* a *" ++ [NL])) =
      Some (make_token TOK_EOF (str "EOF") 2 0, st') /\
    contents st' = [].
Proof.
  exact (block_comment_at_end_of_input (start (str "/* a *" ++ [NL]))
           (str " a *" ++ [NL]) eq_refl eq_refl).
Defined.

(* ================================================================= *)
(** ** Numbers *)

(** A loop that only looks at the character in hand, on the longest run of
    characters it accepts: the body is applied to each character of the run
    in turn. *)
Lemma while_read_fold {A} (p : ascii -> bool) (cond : cint -> A -> bool)
    (body : cint -> A -> A) (rest : list ascii) :
  (forall c a, cond c a = match c with Some x => p x | None => false end) ->
  maximal_run p rest ->
  forall cs st fuel a,
    forallb p cs = true ->
    contents st = cs ++ rest ->
    List.length cs <= fuel ->
    while_read fuel cond body (hd_error (contents st)) a (after_read st) =
    Some ((hd_error rest, fold_left (fun a x => body (Some x) a) cs a),
          drain (S (List.length cs)) st).
Proof.
  intros Hcond Hmax. induction cs as [|x cs IH]; intros st fuel a Hrun H Hf.
  - simpl in H. rewrite H.
    assert (Hc : cond (hd_error rest) a = false).
    { rewrite Hcond. destruct rest; auto. }
    destruct fuel; simpl; rewrite Hc; reflexivity.
  - simpl in H, Hrun. apply andb_true_iff in Hrun as [Hx Hrun].
    rewrite H. cbn [hd_error].
    destruct fuel as [|fuel]; [simpl in Hf; lia|].
    rewrite while_read_enter by (rewrite Hcond; exact Hx).
    assert (H1 : contents (after_read st) = cs ++ rest)
      by (rewrite contents_after_read, H; reflexivity).
    rewrite (IH (after_read st) fuel _ Hrun H1) by (simpl in Hf; lia).
    cbn [List.length fold_left]. rewrite (drain_S (S _)). reflexivity.
Qed.

Lemma store_fold (n : nat) (cs : list ascii) :
  forall pre,
    fold_left (fun b x => store n (Some x) b) cs (firstn n pre) =
    firstn n (pre ++ cs).
Proof.
  induction cs as [|x cs IH]; intros pre; simpl.
  - rewrite app_nil_r. reflexivity.
  - unfold store at 2. cbn [to_char]. rewrite push_firstn, IH, <- app_assoc.
    reflexivity.
Qed.

Lemma store_fold_nil (n : nat) (cs : list ascii) :
  fold_left (fun b x => store n (Some x) b) cs [] = firstn n cs.
Proof.
  pose proof (store_fold n cs []) as H. rewrite firstn_nil in H. exact H.
Qed.

Lemma digit_cond_char c (b : list ascii) :
  digit_cond c b = match c with Some x => isdigit (Some x) | None => false end.
Proof. destruct c; reflexivity. Qed.

Lemma ahead_drain cs rest st :
  contents st = cs ++ rest ->
  ahead (hd_error rest) (drain (S (List.length cs)) st) = rest.
Proof.
  intros H. change (drain (S (List.length cs)) st)
    with (after_read (drain (List.length cs) st)).
  pose proof (ahead_after_read (drain (List.length cs) st)) as Ha.
  rewrite (contents_drain_app _ _ _ H) in Ha. exact Ha.
Qed.

Lemma number_chars_no_nul s :
  forallb (fun a => isdigit (Some a) || Ascii.eqb a ".") s = true ->
  forallb (fun a => negb (Ascii.eqb a NUL)) s = true.
Proof.
  induction s as [|a s IH]; simpl; auto.
  intros H; apply andb_true_iff in H as [Ha Hs]. rewrite (IH Hs), andb_true_r.
  revert Ha. destruct a as [[] [] [] [] [] [] [] []]; vm_compute; auto.
Qed.

Lemma lexeme_number ty s l c :
  forallb (fun a => isdigit (Some a) || Ascii.eqb a ".") s = true ->
  lexeme (make_token ty (firstn (MAX_LEXEME_LEN - 1) s) l c) =
  firstn (MAX_LEXEME_LEN - 1) s.
Proof.
  intros H. unfold make_token; cbn [lexeme].
  rewrite cstr_no_nul by (apply forallb_firstn, number_chars_no_nul; exact H).
  rewrite firstn_firstn, Nat.min_id. reflexivity.
Qed.

(** [read_number] on a maximal run of digits that no decimal point
    follows. *)
Lemma read_number_int (fuel : nat) st ds tail :
  contents st = ds ++ tail ->
  forallb (fun a => isdigit (Some a)) ds = true ->
  maximal_run (fun a => isdigit (Some a)) tail ->
  is_chr "." (hd_error tail) = false ->
  List.length ds <= fuel ->
  read_number fuel st =
  Some (make_token TOK_INT (firstn (MAX_LEXEME_LEN - 1) ds)
          (g_line st) (g_col st + 1),
        after_unread (hd_error tail) (drain (S (List.length ds)) st)).
Proof.
  intros H Hds Hmax Hdot Hf. unfold read_number.
  unfold bind at 1, get_line. unfold bind at 1, get_col.
  rewrite (bind_some _ _ _ _ _ (read_char_eq st)).
  rewrite (bind_some _ _ _ _ _
             (while_read_fold _ digit_cond (store (MAX_LEXEME_LEN - 1)) tail
                digit_cond_char Hmax ds st fuel [] Hds H Hf)).
  rewrite Hdot.
  rewrite (bind_some _ _ _ _ _ (unread_char_eq _ _)).
  rewrite store_fold_nil. reflexivity.
Qed.

(** [read_number] on digits, a decimal point and a maximal run of further
    digits. *)
Lemma read_number_float (fuel : nat) st ds frac tail :
  contents st = ds ++ "."%char :: frac ++ tail ->
  forallb (fun a => isdigit (Some a)) ds = true ->
  forallb (fun a => isdigit (Some a)) frac = true ->
  maximal_run (fun a => isdigit (Some a)) tail ->
  List.length ds + List.length frac <= fuel ->
  read_number fuel st =
  Some (make_token TOK_FLOAT
          (firstn (MAX_LEXEME_LEN - 1) (ds ++ "."%char :: frac))
          (g_line st) (g_col st + 1),
        after_unread (hd_error tail)
          (drain (List.length ds + List.length frac + 2) st)).
Proof.
  intros H Hds Hfrac Hmax Hf. unfold read_number.
  unfold bind at 1, get_line. unfold bind at 1, get_col.
  rewrite (bind_some _ _ _ _ _ (read_char_eq st)).
  rewrite (bind_some _ _ _ _ _
             (while_read_fold _ digit_cond (store (MAX_LEXEME_LEN - 1))
                ("."%char :: frac ++ tail)
                digit_cond_char eq_refl ds st fuel [] Hds H ltac:(lia))).
  cbn [hd_error]. change (is_chr "." (Some "."%char)) with true. cbv iota.
  set (s2 := drain (S (List.length ds)) st).
  assert (H2 : contents s2 = frac ++ tail).
  { pose proof (ahead_drain _ _ _ H) as Ha. cbn [hd_error ahead] in Ha.
    injection Ha as Ha. exact Ha. }
  rewrite (bind_some _ _ _ _ _ (read_char_eq s2)).
  rewrite store_fold_nil.
  rewrite push_firstn.
  rewrite (bind_some _ _ _ _ _
             (while_read_fold _ digit_cond (store (MAX_LEXEME_LEN - 1)) tail
                digit_cond_char Hmax frac s2 fuel _ Hfrac H2 ltac:(lia))).
  rewrite (bind_some _ _ _ _ _ (unread_char_eq _ _)).
  rewrite store_fold, <- app_assoc. unfold s2. rewrite drain_add.
  cbn [app]. unfold ret. do 4 f_equal. lia.
Qed.

Lemma digit_start d :
  isdigit (Some d) = true ->
  isalpha (Some d) || is_chr "_" (Some d) = false /\ Ascii.eqb d NL = false.
Proof.
  destruct d as [[] [] [] [] [] [] [] []]; vm_compute; auto;
    intros; discriminate.
Qed.

Lemma digits_are_number_chars s :
  forallb (fun a => isdigit (Some a)) s = true ->
  forallb (fun a => isdigit (Some a) || Ascii.eqb a ".") s = true.
Proof.
  induction s as [|a s IH]; simpl; auto.
  intros H; apply andb_true_iff in H as [-> Hs]. simpl. auto.
Qed.

(** X13.  An integer: when, after the layout, the stream starts with a
    maximal run of digits that no decimal point follows, [next_token]
    returns [TOK_INT] with the digits as text (the first 255 of them) and
    consumes the run and nothing else. *)
Theorem integer_is_scanned (st s : State) (d : ascii)
    (ds tail : list ascii) :
  layout_skipped st s ->
  contents s = (d :: ds) ++ tail ->
  forallb (fun a => isdigit (Some a)) (d :: ds) = true ->
  maximal_run (fun a => isdigit (Some a)) tail ->
  is_chr "." (hd_error tail) = false ->
  exists t st',
    next_token st = Some (t, st') /\
    type t = TOK_INT /\
    lexeme t = firstn 255 (d :: ds) /\
    line t = g_line s /\ col t = (g_col s + 1)%Z /\
    contents st' = tail.
Proof.
  intros Hskip H Hds Hmax Hdot.
  assert (Hd : isdigit (Some d) = true).
  { simpl in Hds. apply andb_true_iff in Hds as [Hd _]. exact Hd. }
  destruct (digit_start _ Hd) as [Hal Hnl].
  rewrite (next_token_after_layout _ _ _ _ Hskip H), Hal, Hd.
  destruct (peeked_spec d (ds ++ tail) s H Hnl) as (Hr & Hl & Hc).
  rewrite (read_number_int (remaining st + 2) _ (d :: ds) tail Hr Hds Hmax
             Hdot).
  - eexists _, _. split; [reflexivity|]. split; [reflexivity|].
    split; [apply lexeme_number, digits_are_number_chars; exact Hds|].
    split; [exact Hl|]. split; [cbn [col make_token]; rewrite Hc; reflexivity|].
    rewrite contents_after_unread.
    apply (ahead_drain (d :: ds) tail _ Hr).
  - destruct (layout_skipped_suffix _ _ Hskip) as [k Hk].
    unfold remaining. rewrite Hk, H, !length_app. lia.
Qed.

Lemma integer_is_scanned_witness :
  exists t st',
    next_token (start (str " 12+")) = Some (t, st') /\
    type t = TOK_INT /\
    lexeme t = str "12" /\
    line t = 1%Z /\ col t = 2%Z /\
    contents st' = str "+".
Proof.
  refine (integer_is_scanned
            (start (str " 12+"))
            (mkState 1 1 (mkFILE ["1"%char] (str "2+") 1))
            "1"%char (str "2") (str "+") _ eq_refl eq_refl eq_refl eq_refl).
  exists 6. vm_compute. reflexivity.
Defined.

(** X14.  A float: when, after the layout, the stream starts with digits, a
    decimal point and a maximal run of further digits, which may be empty,
    [next_token] returns [TOK_FLOAT] whose text is the digits, the point and
    the further digits (the first 255 characters of them), and consumes
    these and nothing else: no exponent, no sign and no second point is taken
    into the literal. *)
Theorem float_is_scanned (st s : State) (d : ascii)
    (ds frac tail : list ascii) :
  layout_skipped st s ->
  contents s = (d :: ds) ++ "."%char :: frac ++ tail ->
  forallb (fun a => isdigit (Some a)) (d :: ds) = true ->
  forallb (fun a => isdigit (Some a)) frac = true ->
  maximal_run (fun a => isdigit (Some a)) tail ->
  exists t st',
    next_token st = Some (t, st') /\
    type t = TOK_FLOAT /\
    lexeme t = firstn 255 ((d :: ds) ++ "."%char :: frac) /\
    line t = g_line s /\ col t = (g_col s + 1)%Z /\
    contents st' = tail.
Proof.
  intros Hskip H Hds Hfrac Hmax.
  assert (Hd : isdigit (Some d) = true).
  { simpl in Hds. apply andb_true_iff in Hds as [Hd _]. exact Hd. }
  destruct (digit_start _ Hd) as [Hal Hnl].
  rewrite (next_token_after_layout _ _ _ _ Hskip H), Hal, Hd.
  destruct (peeked_spec d (ds ++ "."%char :: frac ++ tail) s H Hnl)
    as (Hr & Hl & Hc).
  rewrite (read_number_float (remaining st + 2) _ (d :: ds) frac tail Hr Hds
             Hfrac Hmax).
  - eexists _, _. split; [reflexivity|]. split; [reflexivity|].
    split.
    { apply lexeme_number. rewrite forallb_app.
      rewrite (digits_are_number_chars _ Hds). simpl.
      apply digits_are_number_chars. exact Hfrac. }
    split; [exact Hl|]. split; [cbn [col make_token]; rewrite Hc; reflexivity|].
    rewrite contents_after_unread.
    replace (List.length (d :: ds) + List.length frac + 2)
      with (S (List.length ((d :: ds) ++ "."%char :: frac)))
      by (rewrite length_app; simpl; lia).
    apply ahead_drain. rewrite Hr. simpl. rewrite <- app_assoc. reflexivity.
  - destruct (layout_skipped_suffix _ _ Hskip) as [k Hk].
    unfold remaining. rewrite Hk, H, !length_app. simpl.
    rewrite length_app. lia.
Qed.

Lemma float_is_scanned_witness :
  exists t st',
    next_token (start (str "12..5")) = Some (t, st') /\
    type t = TOK_FLOAT /\
    lexeme t = str "12." /\
    line t = 1%Z /\ col t = 1%Z /\
    contents st' = str ".5".
Proof.
  refine (float_is_scanned
            (start (str "12..5"))
            (mkState 1 0 (mkFILE ["1"%char] (str "2..5") 1))
            "1"%char (str "2") [] (str ".5") _ eq_refl eq_refl eq_refl
            eq_refl).
  exists 7. vm_compute. reflexivity.
Defined.

(* ================================================================= *)
(** ** Character literals *)

Lemma length_cstr s : List.length (cstr s) <= List.length s.
Proof.
  induction s as [|a s IH]; simpl; auto.
  destruct (Ascii.eqb a NUL); simpl; lia.
Qed.

Lemma lexeme_short ty s l c :
  List.length s <= MAX_LEXEME_LEN - 1 ->
  lexeme (make_token ty s l c) = cstr s.
Proof.
  intros H. unfold make_token; cbn [lexeme]. apply firstn_all2.
  pose proof (length_cstr s). lia.
Qed.

(** [read_char_literal] on a literal whose content is well formed: what
    decides is the character after the content. *)
Lemma read_char_literal_logical st l r :
  contents st = "'"%char :: l ++ r ->
  logical_char l = true ->
  read_char_literal st =
  Some (make_token
          (if is_chr "'" (hd_error r) then TOK_CHAR else TOK_ERROR)
          (if is_chr "'" (hd_error r) then l else invalid_char)
          (g_line st) (g_col st + 1),
        drain (List.length l + 2) st).
Proof.
  intros H Hl. unfold read_char_literal.
  unfold bind at 1, get_line. unfold bind at 1, get_col.
  rewrite (bind_some _ _ _ _ _ (read_char_eq st)).
  rewrite (bind_some _ _ _ _ _ (read_char_eq (after_read st))).
  rewrite contents_after_read, H. cbn [tl].
  destruct l as [|c [|e [|x l]]]; try discriminate; cbn [app hd_error].
  - simpl in Hl. apply andb_true_iff in Hl as [Hn Hb].
    apply negb_true_iff in Hn, Hb. rewrite Hn, Hb.
    unfold ret at 1. rewrite (bind_some _ _ _ (Some [c]) _ eq_refl).
    rewrite (bind_some _ _ _ _ _ (read_char_eq _)).
    rewrite !contents_after_read, H. cbn [tl app].
    destruct (is_chr "'" (hd_error r)); reflexivity.
  - simpl in Hl. apply andb_true_iff in Hl as [Hb Hn].
    apply Ascii.eqb_eq in Hb; subst c. apply negb_true_iff in Hn.
    change (Ascii.eqb "\"%char NL) with false.
    change (Ascii.eqb "\"%char "\"%char) with true. cbv iota.
    rewrite (bind_some _ _ _ (Some ["\"%char; e]) (drain 3 st)).
    + rewrite (bind_some _ _ _ _ _ (read_char_eq _)).
      rewrite contents_drain, H. cbn [skipn app].
      destruct (is_chr "'" (hd_error r)); reflexivity.
    + rewrite (bind_some _ _ _ _ _ (read_char_eq _)).
      rewrite !contents_after_read, H. cbn [tl app hd_error]. rewrite Hn.
      reflexivity.
Qed.

(** X15.  A character literal: when, after the layout, the stream starts
    with a single quote and a well-formed content (one character, or a
    backslash and one character), [next_token] consumes the quote, the
    content and the character after it.  If that character is a single quote
    the token is [TOK_CHAR] and its text is the content as it stands in the
    source, an escape pair uninterpreted; if not, the token is [TOK_ERROR]
    with the message for an invalid literal. *)
Theorem char_literal_is_scanned (st s : State) (l r : list ascii) :
  layout_skipped st s ->
  contents s = "'"%char :: l ++ r ->
  logical_char l = true ->
  exists t st',
    next_token st = Some (t, st') /\
    line t = g_line s /\ col t = (g_col s + 1)%Z /\
    contents st' = tl r /\
    if is_chr "'" (hd_error r)
    then type t = TOK_CHAR /\ lexeme t = cstr l
    else type t = TOK_ERROR /\ lexeme t = invalid_char.
Proof.
  intros Hskip H Hl.
  replace (next_token st) with (read_char_literal (peeked (Some "'"%char) s))
    by (rewrite (next_token_after_layout _ _ _ _ Hskip H); reflexivity).
  destruct (peeked_spec "'" _ s H eq_refl) as (Hr & Hline & Hcol).
  rewrite (read_char_literal_logical _ l r Hr Hl), Hline, Hcol.
  eexists _, _. split; [reflexivity|].
  split; [reflexivity|]. split; [reflexivity|]. split.
  - rewrite contents_drain, Hr.
    replace (List.length l + 2) with (S (List.length l + 1)) by lia.
    cbn [skipn]. rewrite skipn_app, Nat.add_comm.
    replace (1 + List.length l - List.length l) with 1 by lia.
    rewrite skipn_all2 by lia. destruct r; reflexivity.
  - destruct (is_chr "'" (hd_error r)); split; try reflexivity.
    apply lexeme_short.
    destruct l as [|c [|e [|x l]]]; try discriminate; simpl; lia.
Qed.

Lemma char_literal_is_scanned_witness :
  exists t st',
    next_token (start (str "'\n';")) = Some (t, st') /\
    line t = 1%Z /\ col t = 1%Z /\
    contents st' = str ";" /\
    type t = TOK_CHAR /\ lexeme t = str "\n".
Proof.
  refine (char_literal_is_scanned
            (start (str "'\n';"))
            (mkState 1 0 (mkFILE ["'"%char] (str "\n';") 1))
            (str "\n") (str "';") _ eq_refl eq_refl).
  exists 7. vm_compute. reflexivity.
Defined.

Lemma read_char_literal_unterminated st r :
  contents st = "'"%char :: r ->
  unterminated_char_body r = true ->
  read_char_literal st =
  Some (make_token TOK_ERROR unterminated_char (g_line st) (g_col st + 1),
        drain (if is_chr "\" (hd_error r) then 3 else 2) st).
Proof.
  intros H Hu. unfold read_char_literal.
  unfold bind at 1, get_line. unfold bind at 1, get_col.
  rewrite (bind_some _ _ _ _ _ (read_char_eq st)).
  rewrite (bind_some _ _ _ _ _ (read_char_eq (after_read st))).
  rewrite contents_after_read, H. cbn [tl].
  destruct r as [|c r']; cbn [hd_error]; [reflexivity|].
  simpl in Hu. destruct (Ascii.eqb c NL) eqn:Hn.
  - apply Ascii.eqb_eq in Hn; subst c. reflexivity.
  - simpl in Hu. apply andb_true_iff in Hu as [Hb He].
    rewrite Hb. cbn [is_chr]. rewrite Hb.
    rewrite (bind_some _ _ _ None (drain 3 st)); [reflexivity|].
    rewrite (bind_some _ _ _ _ _ (read_char_eq _)).
    rewrite !contents_after_read, H. cbn [tl].
    destruct r' as [|e r'']; cbn [hd_error]; [reflexivity|].
    rewrite He. reflexivity.
Qed.

(** X16.  An unterminated character literal: when the end of the input or a
    newline comes right after the opening quote, or right after a backslash
    that follows it, the token is [TOK_ERROR] with the message for an
    unterminated literal, and the newline, if there is one, is consumed with
    the literal. *)
Theorem char_literal_unterminated (st s : State) (r : list ascii) :
  layout_skipped st s ->
  contents s = "'"%char :: r ->
  unterminated_char_body r = true ->
  exists t st',
    next_token st = Some (t, st') /\
    type t = TOK_ERROR /\ lexeme t = unterminated_char /\
    line t = g_line s /\ col t = (g_col s + 1)%Z /\
    contents st' = (if is_chr "\" (hd_error r) then skipn 2 r else skipn 1 r).
Proof.
  intros Hskip H Hu.
  replace (next_token st) with (read_char_literal (peeked (Some "'"%char) s))
    by (rewrite (next_token_after_layout _ _ _ _ Hskip H); reflexivity).
  destruct (peeked_spec "'" _ s H eq_refl) as (Hr & Hline & Hcol).
  rewrite (read_char_literal_unterminated _ r Hr Hu), Hline, Hcol.
  eexists _, _. split; [reflexivity|].
  split; [reflexivity|]. split; [reflexivity|].
  split; [reflexivity|]. split; [reflexivity|].
  rewrite contents_drain, Hr. destruct (is_chr "\" (hd_error r)); reflexivity.
Qed.

Lemma char_literal_unterminated_witness :
  exists t st',
    next_token (start (str "'\" ++ NL :: str "x")) = Some (t, st') /\
    type t = TOK_ERROR /\ lexeme t = unterminated_char /\
    line t = 1%Z /\ col t = 1%Z /\
    contents st' = str "x".
Proof.
  refine (char_literal_unterminated
            (start (str "'\" ++ NL :: str "x"))
            (mkState 1 0 (mkFILE ["'"%char] (str "\" ++ NL :: str "x") 1))
            (str "\" ++ NL :: str "x") _ eq_refl eq_refl).
  exists 6. vm_compute. reflexivity.
Defined.

(* ================================================================= *)
(** ** Operators, separators and unknown characters *)

Lemma strcmp0_pair c1 c2 a b :
  Ascii.eqb a NUL = false -> Ascii.eqb b NUL = false ->
  strcmp0 [c1; c2] [a; b] = true -> c1 = a /\ c2 = b.
Proof.
  intros Ha Hb. unfold strcmp0. simpl. rewrite Ha, Hb.
  destruct (Ascii.eqb c1 NUL); simpl; [discriminate|].
  destruct (Ascii.eqb c2 NUL); simpl.
  - destruct (Ascii.eqb c1 a); discriminate.
  - destruct (Ascii.eqb_spec c1 a); [|discriminate].
    destruct (Ascii.eqb_spec c2 b); [|discriminate]. auto.
Qed.

(** The loop over [two_ops] finds the pair exactly when it is in the table. *)
Lemma two_ops_match c1 c2 :
  existsb (strcmp0 [c1; c2]) two_ops = true <-> In [c1; c2] two_ops.
Proof.
  split.
  - intros H. apply existsb_exists in H as (x & Hin & Hx).
    unfold two_ops in Hin. simpl in Hin.
    repeat (destruct Hin as [<-|Hin];
            [apply strcmp0_pair in Hx as [-> ->];
             [simpl; tauto|reflexivity|reflexivity]|]).
    destruct Hin.
  - intros H. unfold two_ops in H. simpl in H.
    repeat (destruct H as [[= <- <-]|H]; [reflexivity|]). destruct H.
Qed.

Lemma two_ops_start c1 c2 :
  In [c1; c2] two_ops ->
  isspace (Some c1) = false /\
  isalpha (Some c1) || is_chr "_" (Some c1) = false /\
  isdigit (Some c1) = false /\
  is_chr DQUOTE (Some c1) = false /\
  is_chr "'" (Some c1) = false /\
  is_separator_char (Some c1) = false /\
  strchr single_ops c1 = true.
Proof.
  intros H. unfold two_ops in H. simpl in H.
  repeat (destruct H as [[= <- <-]|H]; [repeat split; reflexivity|]).
  destruct H.
Qed.

Lemma separator_start c :
  is_separator_char (Some c) = true ->
  isspace (Some c) = false /\
  isalpha (Some c) || is_chr "_" (Some c) = false /\
  isdigit (Some c) = false /\
  is_chr DQUOTE (Some c) = false /\
  is_chr "'" (Some c) = false /\
  Ascii.eqb c NUL = false.
Proof.
  destruct c as [[] [] [] [] [] [] [] []]; vm_compute; intros H;
    try discriminate; repeat split; reflexivity.
Qed.

Lemma single_ops_start c :
  In c single_ops ->
  isspace (Some c) = false /\
  isalpha (Some c) || is_chr "_" (Some c) = false /\
  isdigit (Some c) = false /\
  is_chr DQUOTE (Some c) = false /\
  is_chr "'" (Some c) = false /\
  is_separator_char (Some c) = false /\
  strchr single_ops c = true /\
  Ascii.eqb c NUL = false.
Proof.
  intros H. unfold single_ops in H. simpl in H.
  repeat (destruct H as [<-|H]; [repeat split; reflexivity|]).
  destruct H.
Qed.

(** No two-character operator starts with a character that the test for
    one-character operators rejects. *)
Lemma no_two_ops_without_single c1 c2 :
  strchr single_ops c1 = false ->
  existsb (strcmp0 [c1; c2]) two_ops = false.
Proof.
  intros H. destruct (existsb _ two_ops) eqn:E; [|reflexivity].
  apply two_ops_match, two_ops_start in E.
  destruct E as (_ & _ & _ & _ & _ & _ & E). congruence.
Qed.

(** The pair that [read_operator_or_separator] builds at the end of the
    input, with [(char)EOF] as second character, is no operator. *)
Lemma two_ops_at_end c1 : existsb (strcmp0 [c1; to_char EOF]) two_ops = false.
Proof.
  destruct (existsb _ two_ops) eqn:E; [|reflexivity].
  apply two_ops_match in E. unfold two_ops in E. simpl in E.
  repeat (destruct E as [E|E]; [discriminate E|]). destruct E.
Qed.

(** X17.  A separator is a token of its own: when, after the layout, the
    stream starts with one of the eight separator characters, [next_token]
    consumes that character only and returns it as [TOK_SEPARATOR], whatever
    follows. *)
Theorem separator_is_scanned (st s : State) (c : ascii) (l : list ascii) :
  layout_skipped st s ->
  contents s = c :: l ->
  is_separator_char (Some c) = true ->
  exists t st',
    next_token st = Some (t, st') /\
    type t = TOK_SEPARATOR /\ lexeme t = [c] /\
    line t = g_line s /\ col t = (g_col s + 1)%Z /\
    contents st' = l.
Proof.
  intros Hskip H Hsep.
  destruct (separator_start c Hsep) as (Hsp & Hid & Hdig & Hdq & Hsq & Hnul).
  destruct (operator_or_separator_scanned st s c l Hskip H Hsp Hid Hdig Hdq Hsq)
    as (t & st' & E & Hl & Hc & Hrest).
  rewrite Hsep in Hrest. destruct Hrest as (Hty & Hlex & Hcont).
  exists t, st'. repeat (split; [assumption|]). split; [|auto].
  rewrite Hlex. simpl. rewrite Hnul. reflexivity.
Qed.

Lemma separator_is_scanned_witness :
  exists t st',
    next_token (start (str " );")) = Some (t, st') /\
    type t = TOK_SEPARATOR /\ lexeme t = str ")" /\
    line t = 1%Z /\ col t = 2%Z /\
    contents st' = str ";".
Proof.
  refine (separator_is_scanned
            (start (str " );"))
            (mkState 1 1 (mkFILE [")"%char] (str ";") 1))
            ")"%char (str ";") _ eq_refl eq_refl).
  exists 5. vm_compute. reflexivity.
Defined.

(** X18.  The two-character operators are matched greedily: when, after the
    layout, the stream starts with a pair of the table, [next_token]
    consumes both characters and returns them as one [TOK_OPERATOR]. *)
Theorem two_character_operator_is_scanned (st s : State) (c1 c2 : ascii)
    (l : list ascii) :
  layout_skipped st s ->
  contents s = c1 :: c2 :: l ->
  In [c1; c2] two_ops ->
  exists t st',
    next_token st = Some (t, st') /\
    type t = TOK_OPERATOR /\ lexeme t = [c1; c2] /\
    line t = g_line s /\ col t = (g_col s + 1)%Z /\
    contents st' = l.
Proof.
  intros Hskip H Hin.
  destruct (two_ops_start c1 c2 Hin)
    as (Hsp & Hid & Hdig & Hdq & Hsq & Hsep & _).
  destruct (operator_or_separator_scanned st s c1 (c2 :: l)
              Hskip H Hsp Hid Hdig Hdq Hsq)
    as (t & st' & E & Hl & Hc & Hrest).
  rewrite Hsep in Hrest. cbn [hd_error to_char tl] in Hrest.
  rewrite (proj2 (two_ops_match c1 c2) Hin) in Hrest.
  destruct Hrest as (Hty & Hlex & Hcont).
  exists t, st'. repeat (split; [assumption|]). split; [|auto].
  rewrite Hlex. clear - Hin. unfold two_ops in Hin. simpl in Hin.
  repeat (destruct Hin as [[= <- <-]|Hin]; [reflexivity|]). destruct Hin.
Qed.

Lemma two_character_operator_is_scanned_witness :
  exists t st',
    next_token (start (str "<=x")) = Some (t, st') /\
    type t = TOK_OPERATOR /\ lexeme t = str "<=" /\
    line t = 1%Z /\ col t = 1%Z /\
    contents st' = str "x".
Proof.
  refine (two_character_operator_is_scanned
            (start (str "<=x"))
            (mkState 1 0 (mkFILE ["<"%char] (str "=x") 1))
            "<"%char "="%char (str "x") _ eq_refl _).
  - exists 5. vm_compute. reflexivity.
  - vm_compute. tauto.
Defined.

(** X19.  The fall-back to one character: when, after the layout, the stream
    starts with a one-character operator that forms no two-character operator
    with the character after it, [next_token] returns it alone as
    [TOK_OPERATOR] and leaves the character after it in the stream. *)
Theorem one_character_operator_is_scanned (st s : State) (c1 : ascii)
    (l : list ascii) :
  layout_skipped st s ->
  contents s = c1 :: l ->
  In c1 single_ops ->
  (forall c2, hd_error l = Some c2 -> ~ In [c1; c2] two_ops) ->
  exists t st',
    next_token st = Some (t, st') /\
    type t = TOK_OPERATOR /\ lexeme t = [c1] /\
    line t = g_line s /\ col t = (g_col s + 1)%Z /\
    contents st' = l.
Proof.
  intros Hskip H Hin Hno.
  destruct (single_ops_start c1 Hin)
    as (Hsp & Hid & Hdig & Hdq & Hsq & Hsep & Hop & Hnul).
  destruct (operator_or_separator_scanned st s c1 l
              Hskip H Hsp Hid Hdig Hdq Hsq)
    as (t & st' & E & Hl & Hc & Hrest).
  rewrite Hsep in Hrest.
  assert (Hpair : existsb (strcmp0 [c1; to_char (hd_error l)]) two_ops = false).
  { destruct (hd_error l) as [c2|] eqn:Hhd; [|apply two_ops_at_end].
    destruct (existsb _ two_ops) eqn:E2; [|reflexivity].
    apply two_ops_match in E2. destruct (Hno c2 eq_refl E2). }
  rewrite Hpair, Hop in Hrest. destruct Hrest as (Hty & Hlex & Hcont).
  exists t, st'. repeat (split; [assumption|]). split; [|auto].
  rewrite Hlex. simpl. rewrite Hnul. reflexivity.
Qed.

Lemma one_character_operator_is_scanned_witness :
  exists t st',
    next_token (start (str "<x")) = Some (t, st') /\
    type t = TOK_OPERATOR /\ lexeme t = str "<" /\
    line t = 1%Z /\ col t = 1%Z /\
    contents st' = str "x".
Proof.
  refine (one_character_operator_is_scanned
            (start (str "<x"))
            (mkState 1 0 (mkFILE ["<"%char] (str "x") 1))
            "<"%char (str "x") _ eq_refl _ _).
  - exists 4. vm_compute. reflexivity.
  - vm_compute. tauto.
  - intros c2 [= <-]. vm_compute.
    intros H. repeat (destruct H as [H|H]; [discriminate H|]). exact H.
Defined.

(** X20.  A character of no lexeme class is returned alone as
    [TOK_UNKNOWN], whatever follows it, and the character after it stays in
    the stream: no two-character operator starts with such a character. *)
Theorem unclassified_character_is_unknown (st s : State) (c : ascii)
    (l : list ascii) :
  layout_skipped st s ->
  contents s = c :: l ->
  unclassified c = true ->
  exists t st',
    next_token st = Some (t, st') /\
    type t = TOK_UNKNOWN /\ lexeme t = [c] /\
    line t = g_line s /\ col t = (g_col s + 1)%Z /\
    contents st' = l.
Proof.
  intros Hskip H Hun. unfold unclassified in Hun.
  repeat (apply andb_true_iff in Hun as [Hun ?]).
  repeat match goal with
         | K : negb _ = true |- _ => apply negb_true_iff in K
         end.
  destruct (operator_or_separator_scanned st s c l Hskip H)
    as (t & st' & E & Hl & Hc & Hrest); try assumption.
  match goal with
  | K1 : is_separator_char _ = false, K2 : strchr _ _ = false |- _ =>
    rewrite K1, (no_two_ops_without_single _ _ K2), K2 in Hrest;
    rename K2 into Hop
  end.
  destruct Hrest as (Hty & Hlex & Hcont).
  exists t, st'. repeat (split; [assumption|]). split; [|auto].
  rewrite Hlex. simpl.
  destruct (Ascii.eqb c NUL) eqn:Hnul; [|reflexivity].
  apply Ascii.eqb_eq in Hnul; subst c. discriminate Hop.
Qed.

Lemma unclassified_character_is_unknown_witness :
  exists t st',
    next_token (start (str "@=")) = Some (t, st') /\
    type t = TOK_UNKNOWN /\ lexeme t = str "@" /\
    line t = 1%Z /\ col t = 1%Z /\
    contents st' = str "=".
Proof.
  refine (unclassified_character_is_unknown
            (start (str "@="))
            (mkState 1 0 (mkFILE ["@"%char] (str "=") 1))
            "@"%char (str "=") _ eq_refl eq_refl).
  exists 4. vm_compute. reflexivity.
Defined.

(* ================================================================= *)
(** ** Printing *)

(** X21.  The labels of [token_name]: every kind of token has a label of at
    most ten characters, the width of the field in which [main] prints it,
    none is the label of the [default] branch, and two kinds with the same
    label are the same kind. *)
Theorem token_name_labels (t1 t2 : TokenType) :
  (String.length (token_name t1) <= 10)%nat /\
  token_name t1 <> "???"%string /\
  (token_name t1 = token_name t2 -> t1 = t2).
Proof.
  split; [destruct t1; simpl; lia|].
  split; [destruct t1; discriminate|].
  destruct t1, t2; simpl; intros H; try reflexivity; discriminate H.
Qed.

Lemma token_name_labels_witness :
  (String.length (token_name TOK_IDENTIFIER) <= 10)%nat /\
  token_name TOK_IDENTIFIER <> "???"%string /\
  (token_name TOK_IDENTIFIER = token_name TOK_IDENTIFIER ->
   TOK_IDENTIFIER = TOK_IDENTIFIER).
Proof.
  exact (token_name_labels TOK_IDENTIFIER TOK_IDENTIFIER).
Defined.

(* ================================================================= *)
(** ** The counters do not steer the scanner *)

(** The scanner adds one to its counters, takes one off, sets them to 0 and
    copies them into tokens; it never compares them.  Two runs on the same
    stream whose counters are related at the start by relations that these
    operations keep therefore go the same way, and their counters and the
    positions of their tokens stay related. *)
Section Related.
Variables RL RC : Z -> Z -> Prop.
Hypothesis RL_succ : forall a b, RL a b -> RL (a + 1)%Z (b + 1)%Z.
Hypothesis RC_succ : forall a b, RC a b -> RC (a + 1)%Z (b + 1)%Z.
Hypothesis RC_pred : forall a b, RC a b -> RC (a - 1)%Z (b - 1)%Z.
Hypothesis RC_zero : RC 0%Z 0%Z.


























End Related.















(* ================================================================= *)
(** ** Every character is accounted for *)








Section TokenText.
Variables st s : State.
Hypothesis Hskip : layout_skipped st s.







End TokenText.




